(** * dxf2gcode: the DXF to G-code converter of [src/dxf2gcode.py]

    A shallow embedding of class [DXFToGcode] and the properties of the
    command sequences it produces.

    Modelling choices.
    - Python floats are idealised as real numbers ([R]); comparisons are the
      decidable comparisons of [R].
    - [self.gcode] is a list of lines.  A line is kept as the f-string that
      builds it: the template is the constructor, the interpolated values are
      its arguments (the [.3f] rendering is left to the printer).
    - A Python exception is a [Raise] result; [process_dxf] catches the ones
      of [ezdxf.readfile] only, as the source does.
    - [ezdxf]'s [Vec2] is not part of the repository; the handful of methods
      the converter calls are modelled after its reference implementation.
      So is [LWPolyline.points], which ezdxf defines as a context manager.
    - [main] is a function of the parsed arguments and of the files it can
      see: which paths exist, can be opened for reading or for writing, and
      what they hold; the file it writes is kept as its list of lines.
    The development closes with [parse_document_url] of [src/deploy.py]. *)

From Stdlib Require Import Reals Lra Lia ZArith String Bool Arith List.
From Stdlib Require Import Classical_Prop Ascii.
Import ListNotations.
Open Scope R_scope.

(** ** Results of fallible code *)

Inductive exn : Type :=
| ZeroDivisionError
| IndexError
| TypeError
| IOError
| DXFStructureError.

Inductive result (A : Type) : Type :=
| Ok (a : A)
| Raise (e : exn).
Arguments Ok {A} a.
Arguments Raise {A} e.

Definition bind {A B : Type} (r : result A) (k : A -> result B) : result B :=
  match r with
  | Ok a => k a
  | Raise e => Raise e
  end.

Notation "x <- r ;; k" := (bind r (fun x => k))
  (at level 61, r at next level, right associativity).

(** Python's [a / b] on floats. *)
Definition pydiv (a b : R) : result R :=
  if Req_EM_T b 0 then Raise ZeroDivisionError else Ok (a / b).

(** ** ezdxf.math.Vec2 *)

Module Vec2.

Record t : Type := mk { x : R; y : R }.

Definition add (a b : t) : t := mk (x a + x b) (y a + y b).
Definition sub (a b : t) : t := mk (x a - x b) (y a - y b).
Definition mul (a : t) (k : R) : t := mk (x a * k) (y a * k).
(** [v / 2]: multiplication by the reciprocal of a non-zero literal. *)
Definition half (a : t) : t := mk (x a / 2) (y a / 2).
Definition magnitude (a : t) : R := sqrt (x a * x a + y a * y a).
Definition distance (a b : t) : R := magnitude (sub a b).
(** [orthogonal(ccw=True)] *)
Definition orthogonal (a : t) : t := mk (- y a) (x a).
(** [normalize()] is [self * (1.0 / self.magnitude)]. *)
Definition normalize (a : t) : result t :=
  k <- pydiv 1 (magnitude a) ;; Ok (mul a k).

End Vec2.

Abbreviation vec := Vec2.t.
Notation "'V(' a ',' b ')'" := (Vec2.mk a b) (at level 0).

(** ** G-code lines *)

Inductive cmd : Type :=
| Text (s : string)                       (* header or footer file, verbatim *)
| M5                                      (* "M5" *)
| M4 (power : Z)                          (* "M4 S{power}" *)
| G0 (x y : R)                            (* "G0 X{x:.3f} Y{y:.3f}" *)
| G1 (x y : R) (feed : Z)                 (* "G1 X{x:.3f} Y{y:.3f} F{feed}" *)
| G2 (x y i j : R) (feed : Z)             (* "G2 X.. Y.. I.. J.. F{feed}" *)
| G3 (x y i j : R) (feed : Z).            (* "G3 X.. Y.. I.. J.. F{feed}" *)

(** ** The converter object *)

Record state : Type := mkState {
  power : Z;
  feed_rate : Z;
  rapid_rate : Z;
  gcode : list cmd;
  current_pos : vec;
  laser_on : bool
}.

(** [__init__] *)
Definition init (power feed_rate rapid_rate : Z) : state :=
  mkState power feed_rate rapid_rate [] V(0, 0) false.

Definition default_init : state := init 1000 6000 6000.

Definition append (c : cmd) (s : state) : state :=
  mkState (power s) (feed_rate s) (rapid_rate s) (gcode s ++ [c])
          (current_pos s) (laser_on s).

Definition set_laser (b : bool) (s : state) : state :=
  mkState (power s) (feed_rate s) (rapid_rate s) (gcode s)
          (current_pos s) b.

Definition set_pos (p : vec) (s : state) : state :=
  mkState (power s) (feed_rate s) (rapid_rate s) (gcode s) p (laser_on s).

(** [add_header] / [add_footer] when the file exists and holds [content];
    when it does not, only a warning is printed. *)
Definition add_header (content : option string) (s : state) : state :=
  match content with
  | Some c => append (Text c) s
  | None => s
  end.

Definition add_footer (content : option string) (s : state) : state :=
  match content with
  | Some c => append (Text c) s
  | None => s
  end.

Definition laser_off (s : state) : state :=
  if laser_on s then set_laser false (append M5 s) else s.

Definition laser_on_cmd (s : state) : state :=
  if negb (laser_on s) then set_laser true (append (M4 (power s)) s) else s.

Definition rapid_move (x y : R) (s : state) : state :=
  let s := laser_off s in
  let s := append (G0 x y) s in
  set_pos V(x, y) s.

Definition linear_move (x y : R) (s : state) : state :=
  let s := laser_on_cmd s in
  let s := append (G1 x y (feed_rate s)) s in
  set_pos V(x, y) s.

Definition arc_move (x y cx cy : R) (clockwise : bool) (s : state) : state :=
  let s := laser_on_cmd s in
  let i := cx - Vec2.x (current_pos s) in
  let j := cy - Vec2.y (current_pos s) in
  let c := if clockwise then G2 x y i j (feed_rate s)
           else G3 x y i j (feed_rate s) in
  let s := append c s in
  set_pos V(x, y) s.

(** ** Entities of the model space *)

(** A point of an LWPOLYLINE, format "xyseb". *)
Record vertex : Type := mkVertex {
  vx : R;
  vy : R;
  start_width : R;
  end_width : R;
  vbulge : R
}.

Inductive entity : Type :=
| LINE (start finish : vec)
| CIRCLE (center : vec) (radius : R)
| ARC (center : vec) (radius start_angle end_angle : R)
| LWPOLYLINE (points : list vertex) (is_closed : bool)
| OTHER (dxftype : string).

Definition gtb (a b : R) : bool := if Rgt_dec a b then true else false.
Definition ltb (a b : R) : bool := if Rlt_dec a b then true else false.

Definition process_line (start finish : vec) (s : state) : state :=
  let s := if gtb (Vec2.distance (current_pos s) start) 0.001
           then rapid_move (Vec2.x start) (Vec2.y start) s else s in
  linear_move (Vec2.x finish) (Vec2.y finish) s.

Definition process_circle (center : vec) (radius : R) (s : state) : state :=
  let start_x := Vec2.x center + radius in
  let start_y := Vec2.y center in
  let s := rapid_move start_x start_y s in
  let s := arc_move (Vec2.x center - radius) (Vec2.y center)
                    (Vec2.x center) (Vec2.y center) true s in
  arc_move start_x start_y (Vec2.x center) (Vec2.y center) true s.

(** [math.radians] *)
Definition radians (deg : R) : R := deg * PI / 180.

Definition process_arc (center : vec) (radius sa ea : R) (s : state) : state :=
  let start_angle := radians sa in
  let end_angle := radians ea in
  let start_x := Vec2.x center + radius * cos start_angle in
  let start_y := Vec2.y center + radius * sin start_angle in
  let end_x := Vec2.x center + radius * cos end_angle in
  let end_y := Vec2.y center + radius * sin end_angle in
  let s := if gtb (Vec2.distance (current_pos s) V(start_x, start_y)) 0.001
           then rapid_move start_x start_y s else s in
  arc_move end_x end_y (Vec2.x center) (Vec2.y center) false s.

(** [points[i]] *)
Definition getitem (points : list vertex) (i : nat) : result vertex :=
  match nth_error points i with
  | Some v => Ok v
  | None => Raise IndexError
  end.

(** The arc of lines 119-127 of [process_lwpolyline]: radius and centre of
    the arc from [p1] to [p2] with the given bulge. *)
Definition bulge_to_arc (p1 p2 : vec) (bulge : R) : result (R * vec) :=
  let angle := 4 * atan bulge in
  let dist := Vec2.distance p1 p2 in
  radius <- pydiv dist (2 * sin (angle / 2)) ;;
  let mid := Vec2.half (Vec2.add p1 p2) in
  let h := radius * cos (angle / 2) in
  perp <- Vec2.normalize (Vec2.orthogonal (Vec2.sub p2 p1)) ;;
  let center := Vec2.add mid (Vec2.mul perp h) in
  Ok (radius, center).

(** One round of the [for i in range(len(points))] loop, after the [break]
    test. *)
Definition lw_body (points : list vertex) (first : vertex) (i next_i : nat)
    (s : state) : result state :=
  bulge <- (if Nat.eqb i 0 then Ok (vbulge first)
            else pi <- getitem points i ;; Ok (vbulge pi)) ;;
  next_point <- getitem points next_i ;;
  if ltb (Rabs bulge) 0.001 then
    Ok (linear_move (vx next_point) (vy next_point) s)
  else
    pi <- getitem points i ;;
    let p1 := V(vx pi, vy pi) in
    let p2 := V(vx next_point, vy next_point) in
    rc <- bulge_to_arc p1 p2 bulge ;;
    let center := snd rc in
    Ok (arc_move (Vec2.x p2) (Vec2.y p2) (Vec2.x center) (Vec2.y center)
                 (ltb bulge 0) s).

Fixpoint lw_loop (points : list vertex) (is_closed : bool) (first : vertex)
    (range : list nat) (s : state) : result state :=
  match range with
  | [] => Ok s
  | i :: range' =>
      let next_i := ((i + 1) mod (List.length points))%nat in
      if Nat.eqb next_i 0 && negb is_closed then Ok s
      else
        s' <- lw_body points first i next_i s ;;
        lw_loop points is_closed first range' s'
  end.

(** Lines 106-128 of [process_lwpolyline]: what the method does with the
    list [points] once line 105 has bound it. *)
Definition lw_path (points : list vertex) (is_closed : bool)
    (s : state) : result state :=
  match points with
  | [] => Ok s
  | first :: _ =>
      let s := rapid_move (vx first) (vy first) s in
      lw_loop points is_closed first (seq 0 (List.length points)) s
  end.

(** The objects line 105 handles.  In ezdxf, [LWPolyline.points] is a
    context manager: [entity.points()] returns the manager, which gives the
    list of points on entry of a [with] block and is not iterable. *)
Inductive pyobject : Type :=
| PyList (items : list vertex)
| PyContextManager (yields : list vertex).

(** [entity.points()] on an LWPOLYLINE holding [points]. *)
Definition lwpolyline_points (points : list vertex) : pyobject :=
  PyContextManager points.

(** [list(x)] *)
Definition py_list (x : pyobject) : result (list vertex) :=
  match x with
  | PyList items => Ok items
  | PyContextManager _ => Raise TypeError
  end.

(** [process_lwpolyline] on the LWPOLYLINE entity that holds
    [entity_points]. *)
Definition process_lwpolyline (entity_points : list vertex) (is_closed : bool)
    (s : state) : result state :=
  points <- py_list (lwpolyline_points entity_points) ;;
  lw_path points is_closed s.

Definition process_entity (e : entity) (s : state) : result state :=
  match e with
  | LINE a b => Ok (process_line a b s)
  | CIRCLE c r => Ok (process_circle c r s)
  | ARC c r sa ea => Ok (process_arc c r sa ea s)
  | LWPOLYLINE pts closed => process_lwpolyline pts closed s
  | OTHER _ => Ok s
  end.

Fixpoint process_entities (msp : list entity) (s : state) : result state :=
  match msp with
  | [] => Ok s
  | e :: msp' => s' <- process_entity e s ;; process_entities msp' s'
  end.

(** [process_dxf]; [doc] is what [ezdxf.readfile(filename)] gives: the
    entities of the model space, or the exception it raised.  The count of
    processed entities is only printed and is left out. *)
Definition process_dxf (doc : result (list entity)) (s : state)
    : result (bool * state) :=
  match doc with
  | Raise _ => Ok (false, s)
  | Ok msp =>
      s' <- process_entities msp s ;;
      Ok (true, laser_off s')
  end.

(** ** Reading the produced lines

    The properties of a command sequence are stated with small automata
    that read the lines from the first to the last. *)

Section Automaton.

Variable Q : Type.
Variable delta : Q -> cmd -> option Q.

Fixpoint run (q : Q) (l : list cmd) : option Q :=
  match l with
  | [] => Some q
  | c :: l' =>
      match delta q c with
      | Some q' => run q' l'
      | None => None
      end
  end.

End Automaton.
Arguments run {Q} delta q l.

Definition is_cut (c : cmd) : bool :=
  match c with
  | G1 _ _ _ | G2 _ _ _ _ _ | G3 _ _ _ _ _ => true
  | _ => false
  end.

Definition is_rapid (c : cmd) : bool :=
  match c with
  | G0 _ _ => true
  | _ => false
  end.

(** Energization of the tool along the sequence; a rapid while the tool is
    energized is refused. *)
Definition energy_step (on : bool) (c : cmd) : option bool :=
  match c with
  | M4 _ => Some true
  | M5 => Some false
  | G0 _ _ => if on then None else Some false
  | _ => Some on
  end.

(** No rapid is read while the tool is energized (the tool is off when the
    sequence starts). *)
Definition rapids_deenergized (l : list cmd) : bool :=
  match run energy_step false l with
  | Some _ => true
  | None => false
  end.

(** The tool is energized after the last line. *)
Definition energized_after (l : list cmd) : bool :=
  match run energy_step false l with
  | Some on => on
  | None => true
  end.

(** Every toggle changes the energization: [M4] is read with the tool off,
    [M5] with the tool on. *)
Definition toggle_step (on : bool) (c : cmd) : option bool :=
  match c with
  | M4 _ => if on then None else Some true
  | M5 => if on then Some false else None
  | _ => Some on
  end.

Definition toggles_effective (l : list cmd) : bool :=
  match run toggle_step false l with
  | Some _ => true
  | None => false
  end.

(** The last toggle read since the last cut or rapid ([Some true] for [M4],
    [Some false] for [M5]); the same toggle twice in a row is refused. *)
Definition repeat_step (last : option bool) (c : cmd) : option (option bool) :=
  match c with
  | M4 _ => match last with Some true => None | _ => Some (Some true) end
  | M5 => match last with Some false => None | _ => Some (Some false) end
  | Text _ => Some last
  | _ => Some None
  end.

Definition no_repeated_toggle (l : list cmd) : bool :=
  match run repeat_step None l with
  | Some _ => true
  | None => false
  end.

(** [pending] holds when the line just read is [M4]; the next one must then
    be a cut, and the sequence may not stop there. *)
Definition pending_step (pending : bool) (c : cmd) : option bool :=
  if pending then (if is_cut c then Some false else None)
  else match c with
       | M4 _ => Some true
       | _ => Some false
       end.

Definition on_followed_by_cut (l : list cmd) : bool :=
  match run pending_step false l with
  | Some pending => negb pending
  | None => false
  end.

Definition cut_count (l : list cmd) : nat :=
  List.length (filter is_cut l).

(** The same properties, said of the positions in the sequence. *)

Definition is_motion (c : cmd) : bool := is_cut c || is_rapid c.

(** Wherever a [G0] stands, the tool is off after the lines before it. *)
Definition no_rapid_while_energized (l : list cmd) : Prop :=
  forall l1 x y l2, l = l1 ++ G0 x y :: l2 -> energized_after l1 = false.

(** Wherever an [M4] stands, the next line exists and is a cut. *)
Definition cut_after_every_on (l : list cmd) : Prop :=
  forall l1 p l2,
    l = l1 ++ M4 p :: l2 -> exists c l3, l2 = c :: l3 /\ is_cut c = true.

(** Between two [M4] lines, and between two [M5] lines, stands a cut or a
    rapid. *)
Definition motion_between_ons (l : list cmd) : Prop :=
  forall l1 p mid q l2,
    l = l1 ++ M4 p :: mid ++ M4 q :: l2 ->
    exists c, In c mid /\ is_motion c = true.

Definition motion_between_offs (l : list cmd) : Prop :=
  forall l1 mid l2,
    l = l1 ++ M5 :: mid ++ M5 :: l2 ->
    exists c, In c mid /\ is_motion c = true.

(** ** What the primitive moves append *)

Definition off_lines (s : state) : list cmd :=
  if laser_on s then [M5] else [].

Definition on_lines (s : state) : list cmd :=
  if laser_on s then [] else [M4 (power s)].

Definition arc_line (x y cx cy : R) (clockwise : bool) (s : state) : cmd :=
  let i := cx - Vec2.x (current_pos s) in
  let j := cy - Vec2.y (current_pos s) in
  if clockwise then G2 x y i j (feed_rate s) else G3 x y i j (feed_rate s).

(** The states the converter reaches from [s0] through its four emitting
    methods; every [process_*] method goes through them only. *)
Inductive moves (s0 : state) : state -> Prop :=
| moves_refl : moves s0 s0
| moves_off s : moves s0 s -> moves s0 (laser_off s)
| moves_rapid s x y : moves s0 s -> moves s0 (rapid_move x y s)
| moves_linear s x y : moves s0 s -> moves s0 (linear_move x y s)
| moves_arc s x y cx cy cw :
    moves s0 s -> moves s0 (arc_move x y cx cy cw s).

(** ** The vertex pairs of a polyline

    The pairs [(points[i], points[(i+1) % len(points)])] the loop of lines
    110-128 visits, the wrap-around pair only when the polyline is closed. *)

Fixpoint edges_from (first : vertex) (is_closed : bool) (l : list vertex)
    : list (vertex * vertex) :=
  match l with
  | [] => []
  | v :: l' =>
      match l' with
      | [] => if is_closed then [(v, first)] else []
      | w :: _ => (v, w) :: edges_from first is_closed l'
      end
  end.

Definition edges (points : list vertex) (is_closed : bool)
    : list (vertex * vertex) :=
  match points with
  | [] => []
  | first :: _ => edges_from first is_closed points
  end.

Definition position (v : vertex) : vec := V(vx v, vy v).

(** What one round of the loop does with the pair [(v, w)]. *)
Definition edge_move (e : vertex * vertex) (s : state) : result state :=
  let (v, w) := e in
  if ltb (Rabs (vbulge v)) 0.001 then Ok (linear_move (vx w) (vy w) s)
  else
    rc <- bulge_to_arc (position v) (position w) (vbulge v) ;;
    Ok (arc_move (vx w) (vy w) (Vec2.x (snd rc)) (Vec2.y (snd rc))
                 (ltb (vbulge v) 0) s).

Fixpoint edge_moves (es : list (vertex * vertex)) (s : state) : result state :=
  match es with
  | [] => Ok s
  | e :: es' => s' <- edge_move e s ;; edge_moves es' s'
  end.

(** The result of the reconstruction, written out. *)
Definition arc_radius (p1 p2 : vec) (bulge : R) : R :=
  Vec2.distance p1 p2 / (2 * sin (4 * atan bulge / 2)).

Definition arc_center (p1 p2 : vec) (bulge : R) : vec :=
  Vec2.add (Vec2.half (Vec2.add p1 p2))
    (Vec2.mul
       (Vec2.mul (Vec2.orthogonal (Vec2.sub p2 p1))
                 (1 / Vec2.magnitude (Vec2.orthogonal (Vec2.sub p2 p1))))
       (arc_radius p1 p2 bulge * cos (4 * atan bulge / 2))).

(** A pair that is drawn as an arc has a chord: its end points differ. *)
Definition has_chord (e : vertex * vertex) : Prop :=
  Rabs (vbulge (fst e)) < 0.001 \/ position (fst e) <> position (snd e).



(** ** Sample drawings *)

(** The polyline of one vertex pair from [(0,0)] to [(10,0)] with the given
    bulge on its first vertex. *)
Definition pair_polyline (bulge : R) : list vertex :=
  [mkVertex 0 0 0 0 bulge; mkVertex 10 0 0 0 0].

(** A line, a circle, and an entity the converter does not know. *)
Definition sample_drawing : list entity :=
  [LINE V(0, 0) V(10, 0);
   CIRCLE V(5, 5) 3;
   OTHER "TEXT"].

Definition after_sample_drawing : state :=
  laser_off (process_circle V(5, 5) 3 (linear_move 10 0 default_init)).



(** A polyline whose first two vertices are the same point. *)
Definition stalled_polyline : list vertex :=
  [mkVertex 0 0 0 0 0; mkVertex 0 0 0 0 0; mkVertex 10 0 0 0 0].

(** ** Measures of a drawing and of its lines *)

(** The line carries the converter's settings: [M4] its power, a cut its
    feed rate. *)
Definition carries_settings (p f : Z) (c : cmd) : bool :=
  match c with
  | M4 q => Z.eqb q p
  | G1 _ _ g | G2 _ _ _ _ g | G3 _ _ _ _ g => Z.eqb g f
  | _ => true
  end.

Definition set_rapid_rate (r : Z) (s : state) : state :=
  mkState (power s) (feed_rate s) r (gcode s) (current_pos s) (laser_on s).

Definition map_result {A B : Type} (f : A -> B) (r : result A) : result B :=
  match r with
  | Ok a => Ok (f a)
  | Raise e => Raise e
  end.

(** The entities of a kind [process_dxf] has a branch for. *)
Definition is_supported (e : entity) : bool :=
  match e with
  | OTHER _ => false
  | _ => true
  end.

Definition is_lwpolyline (e : entity) : bool :=
  match e with
  | LWPOLYLINE _ _ => true
  | _ => false
  end.

(** The entities that make the converter write something. *)
Definition is_drawn (e : entity) : bool :=
  match e with
  | OTHER _ => false
  | LWPOLYLINE [] _ => false
  | _ => true
  end.


(** The entities whose rapid is written whatever the position. *)
Definition always_rapid (e : entity) : bool :=
  match e with
  | CIRCLE _ _ => true
  | LWPOLYLINE (_ :: _) _ => true
  | _ => false
  end.

Definition rapid_count (l : list cmd) : nat :=
  List.length (filter is_rapid l).

Definition is_on (c : cmd) : bool :=
  match c with M4 _ => true | _ => false end.

Definition is_off (c : cmd) : bool :=
  match c with M5 => true | _ => false end.

(** The lines of one cutting move: one cut, no rapid. *)
Definition one_cut (out : list cmd) : Prop :=
  cut_count out = 1%nat /\ rapid_count out = 0%nat.

(** ** Chains of lines *)

(** Each line starts within 1e-3 of the point where the tool is left by
    the one before. *)
Fixpoint connected (pos : vec) (lines : list (vec * vec)) : Prop :=
  match lines with
  | [] => True
  | ab :: rest =>
      Vec2.distance pos (fst ab) <= 0.001 /\ connected (snd ab) rest
  end.

Definition line_entity (ab : vec * vec) : entity := LINE (fst ab) (snd ab).

Definition line_cut (feed : Z) (ab : vec * vec) : cmd :=
  G1 (Vec2.x (snd ab)) (Vec2.y (snd ab)) feed.

(** ** Arcs as a controller reads them

    A [G2]/[G3] line gives the end point and the offset [(i, j)] from the
    point the tool is at to the centre.  The arc is sound when the start
    and the end are equally far from that centre. *)

(** The point the tool is at after the lines (only [G0]..[G3] move it). *)
Fixpoint track (pos : vec) (l : list cmd) : vec :=
  match l with
  | [] => pos
  | c :: l' =>
      match c with
      | G0 x y | G1 x y _ | G2 x y _ _ _ | G3 x y _ _ _ => track V(x, y) l'
      | _ => track pos l'
      end
  end.

(** On every arc line the radius at the start and the radius at the end
    differ by at most [tol]. *)
Fixpoint radii_within (tol : R) (pos : vec) (l : list cmd) : Prop :=
  match l with
  | [] => True
  | c :: l' =>
      match c with
      | G0 x y | G1 x y _ => radii_within tol V(x, y) l'
      | G2 x y i j _ | G3 x y i j _ =>
          Rabs (sqrt (i * i + j * j) -
                Vec2.distance V(Vec2.x pos + i, Vec2.y pos + j) V(x, y)) <= tol /\
          radii_within tol V(x, y) l'
      | _ => radii_within tol pos l'
      end
  end.

Definition is_arc_entity (e : entity) : bool :=
  match e with
  | ARC _ _ _ _ => true
  | _ => false
  end.

Definition entity_tol (e : entity) : R :=
  if is_arc_entity e then 0.001 else 0.

(** The lines written between [s] and [s'] are sound within [tol] from the
    position of [s], and leave the tool where [s'] says it is. *)
Definition sound_step (tol : R) (s s' : state) : Prop :=
  exists o,
    gcode s' = gcode s ++ o /\
    radii_within tol (current_pos s) o /\
    track (current_pos s) o = current_pos s'.

(** ** The command line ([main])

    The parsed arguments, and the files the program can see: which paths
    exist, the text of a header or footer file, what [ezdxf.readfile]
    gives for a path, and which paths [open] can open for reading and for
    writing (it raises on the others). *)

Record args : Type := mkArgs {
  a_input : string;
  a_output : option string;
  a_power : Z;
  a_feed : Z;
  a_rapid : Z;
  a_no_header : bool;
  a_no_footer : bool;
  a_header : option string;
  a_footer : option string
}.

Record files : Type := mkFiles {
  path_exists : string -> bool;
  read_text : string -> string;
  readfile : string -> result (list entity);
  readable : string -> bool;
  writable : string -> bool
}.

(** Python's [str.replace(old, new)] for a non-empty [old]: the string is
    read from the left; at an occurrence of [old], [new] is written and the
    rest of the occurrence ([skip] characters) is passed over. *)
Fixpoint replace_from (old new : string) (skip : nat) (s : string) : string :=
  match s with
  | EmptyString => EmptyString
  | String c s' =>
      match skip with
      | S k => replace_from old new k s'
      | O =>
          if String.prefix old s
          then String.append new
                 (replace_from old new (String.length old - 1) s')
          else String c (replace_from old new 0 s')
      end
  end.

Definition py_replace (old new s : string) : string :=
  replace_from old new 0 s.

(** [old] occurs somewhere in [s]. *)
Fixpoint occurs (old s : string) : bool :=
  String.prefix old s ||
  match s with
  | EmptyString => false
  | String _ s' => occurs old s'
  end.

(** The truth value of an optional string argument. *)
Definition truthy (o : option string) : bool :=
  match o with
  | Some s => negb (String.eqb s "")
  | None => false
  end.

(** [args.output or args.input.replace(".dxf", ".gcode")] *)
Definition output_name (a : args) : string :=
  match a_output a with
  | Some o =>
      if String.eqb o "" then py_replace ".dxf" ".gcode" (a_input a) else o
  | None => py_replace ".dxf" ".gcode" (a_input a)
  end.

(** [with open(name, "r") as f: f.read()]; the exception of [open] is an
    [OSError], which Python also names [IOError]. *)
Definition open_read (w : files) (name : string) : result string :=
  if readable w name then Ok (read_text w name) else Raise IOError.

(** [add_header(header_file)] and [add_footer(footer_file)] on the files. *)
Definition add_header_file (w : files) (name : string) (s : state)
    : result state :=
  if path_exists w name then
    content <- open_read w name ;; Ok (add_header (Some content) s)
  else Ok (add_header None s).

Definition add_footer_file (w : files) (name : string) (s : state)
    : result state :=
  if path_exists w name then
    content <- open_read w name ;; Ok (add_footer (Some content) s)
  else Ok (add_footer None s).

(** [if not args.no_x and args.x: converter.add_x(args.x)] *)
Definition optional_file (skip : bool) (name : option string)
    (add : string -> state -> result state) (s : state) : result state :=
  if negb skip && truthy name then
    match name with
    | Some n => add n s
    | None => Ok s
    end
  else Ok s.

(** [save_gcode(filename)]: the file written (its path and its lines, which
    are joined with newlines), or the exception of [open(filename, "w")]. *)
Definition save_gcode (w : files) (filename : string) (s : state)
    : result (string * list cmd) :=
  if writable w filename then Ok (filename, gcode s) else Raise IOError.

(** [main]: the exit code and the file written by [save_gcode], if any. *)
Definition main (w : files) (a : args)
    : result (Z * option (string * list cmd)) :=
  if negb (path_exists w (a_input a)) then Ok (1%Z, None)
  else
    let output := output_name a in
    let converter := init (a_power a) (a_feed a) (a_rapid a) in
    converter <-
      optional_file (a_no_header a) (a_header a) (add_header_file w) converter ;;
    r <- process_dxf (readfile w (a_input a)) converter ;;
    if negb (fst r) then Ok (1%Z, None)
    else
      converter <-
        optional_file (a_no_footer a) (a_footer a) (add_footer_file w) (snd r) ;;
      saved <- save_gcode w output converter ;;
      Ok (0%Z, Some saved).

(** The lines a header or footer option contributes. *)
Definition file_lines (w : files) (skip : bool) (name : option string)
    : list cmd :=
  match name with
  | Some n =>
      if negb skip && negb (String.eqb n "") && path_exists w n
      then [Text (read_text w n)] else []
  | None => []
  end.

(** No character of [s] is a dot. *)
Fixpoint dotless (s : string) : bool :=
  match s with
  | EmptyString => true
  | String c s' => negb (Ascii.eqb c "."%char) && dotless s'
  end.

(** Files for the samples: every path exists but "stop.gcode"; every text
    file holds "G21", every drawing is the sample drawing, and every path
    can be opened. *)
Definition sample_files : files :=
  mkFiles (fun p => negb (String.eqb p "stop.gcode"))
          (fun _ => "G21"%string)
          (fun _ => Ok sample_drawing)
          (fun _ => true)
          (fun _ => true).

Definition after_sample_from (s : state) : state :=
  laser_off (process_circle V(5, 5) 3 (linear_move 10 0 s)).

(** The converter as [main] has it when the run starts: fresh, with the
    header lines if any. *)
Definition headed (w : files) (a : args) : state :=
  mkState (a_power a) (a_feed a) (a_rapid a)
          (file_lines w (a_no_header a) (a_header a)) V(0, 0) false.

(** The drawing named in capitals, with no output option. *)
Definition capital_args : args :=
  mkArgs "PANEL.DXF" None 1000 6000 6000 true true None None.

Definition sample_args : args :=
  mkArgs "panel.dxf" None 1000 6000 6000 false false
         (Some "start.gcode"%string) (Some "stop.gcode"%string).

(** * deploy.py: parsing a document URL

    [sys.exit(code)] is kept apart from a returned value. *)

Inductive exit_or (A : Type) : Type :=
| Returned (a : A)
| SysExit (code : Z).
Arguments Returned {A} a.
Arguments SysExit {A} code.

Definition is_slash (c : ascii) : bool := Ascii.eqb c "/"%char.

(** [s.rstrip("/")]: trailing slashes removed. *)
Fixpoint rstrip_slash (s : string) : string :=
  match s with
  | EmptyString => EmptyString
  | String c s' =>
      match rstrip_slash s' with
      | EmptyString => if is_slash c then EmptyString else String c EmptyString
      | r => String c r
      end
  end.

(** [s.split("/")]: the pieces between slashes, empty pieces included. *)
Fixpoint split_slash (s : string) : list string :=
  match s with
  | EmptyString => [EmptyString]
  | String c s' =>
      if is_slash c then EmptyString :: split_slash s'
      else match split_slash s' with
           | piece :: pieces => String c piece :: pieces
           | [] => [String c EmptyString]
           end
  end.

(** [parts.index(x)], [None] standing for [ValueError]. *)
Fixpoint list_index (x : string) (parts : list string) : option nat :=
  match parts with
  | [] => None
  | p :: parts' =>
      if String.eqb p x then Some 0%nat
      else option_map S (list_index x parts')
  end.

(** [parts[parts.index(key) + 1]], [None] standing for [ValueError] or
    [IndexError]. *)
Definition segment_after (key : string) (parts : list string) : option string :=
  match list_index key parts with
  | Some i => nth_error parts (i + 1)
  | None => None
  end.

Definition parse_document_url (url : string)
    : exit_or (string * string * string) :=
  let parts := split_slash (rstrip_slash url) in
  match segment_after "documents" parts with
  | None => SysExit 1
  | Some did =>
      match segment_after "w" parts with
      | None => SysExit 1
      | Some wid =>
          match segment_after "e" parts with
          | None => SysExit 1
          | Some eid => Returned (did, wid, eid)
          end
      end
  end.

(** No character of [s] is a slash. *)
Fixpoint slashless (s : string) : bool :=
  match s with
  | EmptyString => true
  | String c s' => negb (is_slash c) && slashless s'
  end.

(** The form of URL the docstring of [parse_document_url] gives:
    [{base}/documents/{did}/w/{wid}/e/{eid}]. *)
Definition documented_url (base did wid eid : string) : string :=
  String.append base
    (String.append "/documents/"
       (String.append did
          (String.append "/w/"
             (String.append wid
                (String.append "/e/" eid))))).

(** A piece that is none of the three key words. *)
Definition not_a_key (p : string) : bool :=
  negb (String.eqb p "documents") && negb (String.eqb p "w") &&
  negb (String.eqb p "e").

(** The documented form cut short after "/e": no element identifier. *)
Definition url_without_eid (base did wid : string) : string :=
  String.append base
    (String.append "/documents/"
       (String.append did
          (String.append "/w/"
             (String.append wid "/e")))).

(** * Properties *)

Lemma run_app {Q : Type} (delta : Q -> cmd -> option Q) (l1 l2 : list cmd) (q : Q) :
  run delta q (l1 ++ l2) =
  match run delta q l1 with
  | Some q' => run delta q' l2
  | None => None
  end.
Proof.
  revert q; induction l1 as [|c l1 IH]; intros q; simpl; [reflexivity|].
  destruct (delta q c); [apply IH | reflexivity].
Qed.

Lemma laser_off_spec (s : state) :
  laser_off s =
  mkState (power s) (feed_rate s) (rapid_rate s) (gcode s ++ off_lines s)
          (current_pos s) false.
Proof.
  unfold laser_off, off_lines; destruct s as [p f r g pos on]; simpl.
  destruct on; simpl; [reflexivity | now rewrite app_nil_r].
Qed.

Lemma rapid_move_spec (x y : R) (s : state) :
  rapid_move x y s =
  mkState (power s) (feed_rate s) (rapid_rate s)
          (gcode s ++ off_lines s ++ [G0 x y]) V(x, y) false.
Proof.
  unfold rapid_move; rewrite laser_off_spec; unfold set_pos, append; simpl.
  now rewrite <- app_assoc.
Qed.

Lemma linear_move_spec (x y : R) (s : state) :
  linear_move x y s =
  mkState (power s) (feed_rate s) (rapid_rate s)
          (gcode s ++ on_lines s ++ [G1 x y (feed_rate s)]) V(x, y) true.
Proof.
  unfold linear_move, laser_on_cmd, on_lines.
  destruct s as [p f r g pos on]; destruct on; simpl; unfold set_pos, append; simpl;
    [reflexivity | now rewrite <- app_assoc].
Qed.

Lemma arc_move_spec (x y cx cy : R) (cw : bool) (s : state) :
  arc_move x y cx cy cw s =
  mkState (power s) (feed_rate s) (rapid_rate s)
          (gcode s ++ on_lines s ++ [arc_line x y cx cy cw s]) V(x, y) true.
Proof.
  unfold arc_move, laser_on_cmd, on_lines, arc_line.
  destruct s as [p f r g pos on]; destruct on; simpl; unfold set_pos, append; simpl;
    [reflexivity | now rewrite <- app_assoc].
Qed.

Lemma arc_line_is_cut (x y cx cy : R) (cw : bool) (s : state) :
  is_cut (arc_line x y cx cy cw s) = true.
Proof. unfold arc_line; destruct cw; reflexivity. Qed.

(** ** Invariants along the emitting methods *)

Section Invariant.

Variable Q : Type.
Variable delta : Q -> cmd -> option Q.
(** The automaton state that goes with the [laser_on] flag. *)
Variable abs : bool -> Q.

Hypothesis read_off : delta (abs true) M5 = Some (abs false).
Hypothesis read_rapid : forall x y, delta (abs false) (G0 x y) = Some (abs false).
Hypothesis read_cut :
  forall c, is_cut c = true -> delta (abs true) c = Some (abs true).
Hypothesis read_on_cut :
  forall p c, is_cut c = true ->
    run delta (abs false) [M4 p; c] = Some (abs true).

Lemma run_off_lines (s : state) :
  run delta (abs (laser_on s)) (off_lines s) = Some (abs false).
Proof.
  unfold off_lines; destruct (laser_on s); simpl;
    [now rewrite read_off | reflexivity].
Qed.

Lemma run_cut_lines (s : state) (c : cmd) :
  is_cut c = true ->
  run delta (abs (laser_on s)) (on_lines s ++ [c]) = Some (abs true).
Proof.
  intros Hc; unfold on_lines; destruct (laser_on s).
  - simpl; now rewrite read_cut.
  - now apply read_on_cut.
Qed.

Lemma moves_run (s0 s : state) :
  moves s0 s ->
  exists out, gcode s = gcode s0 ++ out /\
              run delta (abs (laser_on s0)) out = Some (abs (laser_on s)).
Proof.
  induction 1 as [|s _ [out [Hg Hr]]|s x y _ [out [Hg Hr]]
                 |s x y _ [out [Hg Hr]]|s x y cx cy cw _ [out [Hg Hr]]].
  - exists []; split; [now rewrite app_nil_r | reflexivity].
  - exists (out ++ off_lines s); rewrite laser_off_spec; simpl; split.
    + now rewrite Hg, app_assoc.
    + rewrite run_app, Hr; apply run_off_lines.
  - exists (out ++ off_lines s ++ [G0 x y]); rewrite rapid_move_spec; simpl; split.
    + now rewrite Hg, <- app_assoc.
    + rewrite run_app, Hr, run_app, run_off_lines; simpl.
      now rewrite read_rapid.
  - exists (out ++ on_lines s ++ [G1 x y (feed_rate s)]);
      rewrite linear_move_spec; simpl; split.
    + now rewrite Hg, <- app_assoc.
    + rewrite run_app, Hr; now apply run_cut_lines.
  - exists (out ++ on_lines s ++ [arc_line x y cx cy cw s]);
      rewrite arc_move_spec; simpl; split.
    + now rewrite Hg, <- app_assoc.
    + rewrite run_app, Hr; apply run_cut_lines, arc_line_is_cut.
Qed.

End Invariant.

Lemma moves_trans (s0 s1 s2 : state) :
  moves s0 s1 -> moves s1 s2 -> moves s0 s2.
Proof.
  intros H01 H12; induction H12; auto using moves.
Qed.

(** ** Every [process_*] method goes through the emitting methods *)

Lemma process_line_moves (s0 s : state) (a b : vec) :
  moves s0 s -> moves s0 (process_line a b s).
Proof.
  intros H; unfold process_line.
  destruct (gtb _ _); auto using moves.
Qed.

Lemma process_circle_moves (s0 s : state) (c : vec) (r : R) :
  moves s0 s -> moves s0 (process_circle c r s).
Proof.
  intros H; unfold process_circle; auto using moves.
Qed.

Lemma process_arc_moves (s0 s : state) (c : vec) (r sa ea : R) :
  moves s0 s -> moves s0 (process_arc c r sa ea s).
Proof.
  intros H; unfold process_arc.
  destruct (gtb _ _); auto using moves.
Qed.

(** Line 105 on an LWPOLYLINE entity: [list] of a context manager. *)
Lemma process_lwpolyline_raises (points : list vertex) (closed : bool)
    (s : state) :
  process_lwpolyline points closed s = Raise TypeError.
Proof. reflexivity. Qed.

Lemma process_entity_moves (e : entity) (s0 s s' : state) :
  moves s0 s -> process_entity e s = Ok s' -> moves s0 s'.
Proof.
  intros H; destruct e as [a b|c r|c r sa ea|pts closed|name]; simpl.
  - intros [= <-]; now apply process_line_moves.
  - intros [= <-]; now apply process_circle_moves.
  - intros [= <-]; now apply process_arc_moves.
  - rewrite process_lwpolyline_raises; discriminate.
  - now intros [= <-].
Qed.

Lemma process_entities_moves (msp : list entity) (s0 s s' : state) :
  moves s0 s -> process_entities msp s = Ok s' -> moves s0 s'.
Proof.
  revert s; induction msp as [|e msp IH]; intros s H; simpl.
  - now intros [= <-].
  - destruct (process_entity e s) as [s1|] eqn:E; simpl; [|discriminate].
    apply IH; eauto using process_entity_moves.
Qed.

(** A run of [process_dxf] that returns is a sequence of moves closed by
    [laser_off], or nothing at all when the file could not be read. *)
Lemma process_dxf_moves (doc : result (list entity)) (s s' : state) (b : bool) :
  process_dxf doc s = Ok (b, s') ->
  (exists e, doc = Raise e /\ b = false /\ s' = s) \/
  (exists msp s1, doc = Ok msp /\ b = true /\ moves s s1 /\ s' = laser_off s1).
Proof.
  destruct doc as [msp|e]; simpl.
  - destruct (process_entities msp s) as [s1|] eqn:E; simpl; [|discriminate].
    intros [= <- <-]; right; exists msp, s1; repeat split.
    eapply process_entities_moves; eauto using moves.
  - intros [= <- <-]; left; now exists e.
Qed.

Lemma laser_off_flag (s : state) : laser_on (laser_off s) = false.
Proof. now rewrite laser_off_spec. Qed.

(** The lines a returning run appends are read by an automaton whose state
    follows the [laser_on] flag, and leave it in the state of a tool that
    is off. *)
Lemma process_dxf_run {Q : Type} (delta : Q -> cmd -> option Q) (abs : bool -> Q)
    (doc : result (list entity)) (s s' : state) (b : bool) :
  delta (abs true) M5 = Some (abs false) ->
  (forall x y, delta (abs false) (G0 x y) = Some (abs false)) ->
  (forall c, is_cut c = true -> delta (abs true) c = Some (abs true)) ->
  (forall p c, is_cut c = true ->
     run delta (abs false) [M4 p; c] = Some (abs true)) ->
  laser_on s = false ->
  process_dxf doc s = Ok (b, s') ->
  exists out, gcode s' = gcode s ++ out /\
              run delta (abs false) out = Some (abs false).
Proof.
  intros H1 H2 H3 H4 Hoff Hrun.
  destruct (process_dxf_moves _ _ _ _ Hrun)
    as [[e [_ [_ ->]]]|[msp [s1 [_ [_ [Hm ->]]]]]].
  - exists []; split; [now rewrite app_nil_r | reflexivity].
  - destruct (moves_run Q delta abs H1 H2 H3 H4 s (laser_off s1)
                (moves_off _ _ Hm)) as [out [Hg Hr]].
    exists out; split; [exact Hg|].
    now rewrite Hoff, laser_off_flag in Hr.
Qed.

(** ** From the automata to the positions in the sequence *)

Lemma run_split {Q : Type} (delta : Q -> cmd -> option Q) (l1 l2 : list cmd)
    (q q2 : Q) :
  run delta q (l1 ++ l2) = Some q2 ->
  exists q1, run delta q l1 = Some q1 /\ run delta q1 l2 = Some q2.
Proof.
  rewrite run_app; destruct (run delta q l1) as [q1|]; [|discriminate].
  intros H; now exists q1.
Qed.

Lemma energy_rapids (l : list cmd) (on : bool) :
  run energy_step false l = Some on -> no_rapid_while_energized l.
Proof.
  intros H l1 x y l2 ->.
  destruct (run_split _ _ _ _ _ H) as [q1 [H1 H2]].
  unfold energized_after; rewrite H1.
  simpl in H2; now destruct q1.
Qed.

Lemma pending_cut_after_on (l : list cmd) :
  run pending_step false l = Some false -> cut_after_every_on l.
Proof.
  intros H l1 p l2 ->.
  destruct (run_split _ _ _ _ _ H) as [q1 [_ H2]].
  simpl in H2; destruct q1; [discriminate|]; simpl in H2.
  destruct l2 as [|c l3]; [discriminate|].
  exists c, l3; split; [reflexivity|].
  simpl in H2; now destruct (is_cut c).
Qed.

Lemma cut_after_on_between_ons (l : list cmd) :
  cut_after_every_on l -> motion_between_ons l.
Proof.
  intros H l1 p mid q l2 E.
  destruct (H l1 p (mid ++ M4 q :: l2) E) as [c [l3 [E3 Hc]]].
  destruct mid as [|c' mid'].
  - injection E3 as <- _; discriminate.
  - injection E3 as <- _; exists c'; split; [now left|].
    unfold is_motion; now rewrite Hc.
Qed.

(** A stretch that switches the tool on holds an [M4]. *)
Lemma toggle_on_has_M4 (l : list cmd) :
  run toggle_step false l = Some true ->
  exists m1 p m2, l = m1 ++ M4 p :: m2.
Proof.
  induction l as [|c l IH]; [discriminate|].
  destruct c as [t| |p|x y|x y f|x y i j f|x y i j f]; simpl; intros H;
    try (destruct (IH H) as [m1 [p' [m2 ->]]];
         eexists (_ :: m1), p', m2; reflexivity).
  - discriminate.
  - now exists [], p, l.
Qed.

Lemma between_offs (l : list cmd) (on : bool) :
  run toggle_step false l = Some on ->
  cut_after_every_on l ->
  motion_between_offs l.
Proof.
  intros Ht Hc l1 mid l2 E; subst l.
  destruct (run_split _ _ _ _ _ Ht) as [q1 [_ H2]].
  simpl in H2; destruct q1; [|discriminate].
  destruct (run_split _ _ _ _ _ H2) as [q2 [Hmid H3]].
  simpl in H3; destruct q2; [|discriminate].
  destruct (toggle_on_has_M4 mid Hmid) as [m1 [p [m2 ->]]].
  destruct (Hc (l1 ++ M5 :: m1) p (m2 ++ M5 :: l2)) as [c [l3 [E3 Hcut]]].
  { rewrite <- !app_assoc; reflexivity. }
  destruct m2 as [|c' m2'].
  - injection E3 as <- _; discriminate.
  - injection E3 as <- _; exists c'; split.
    + apply in_or_app; right; right; now left.
    + unfold is_motion; now rewrite Hcut.
Qed.

(** ** The loop of lines 110-128 over the vertex pairs *)

Lemma getitem_app (pre l : list vertex) (v : vertex) :
  getitem (pre ++ v :: l) (List.length pre) = Ok v.
Proof.
  unfold getitem; rewrite nth_error_app2 by lia.
  now rewrite Nat.sub_diag.
Qed.

Lemma lw_body_edge (points : list vertex) (first v w : vertex) (i next_i : nat)
    (s : state) :
  getitem points i = Ok v ->
  getitem points next_i = Ok w ->
  (i = 0%nat -> first = v) ->
  lw_body points first i next_i s = edge_move (v, w) s.
Proof.
  intros Hi Hn H0; unfold lw_body, edge_move, position.
  rewrite Hi, Hn; simpl.
  destruct (Nat.eqb_spec i 0) as [E|E]; simpl.
  - rewrite (H0 E); destruct (ltb _ _); reflexivity.
  - destruct (ltb _ _); reflexivity.
Qed.

Lemma lw_loop_edges (first : vertex) (rest : list vertex) (closed : bool) :
  forall (l pre : list vertex) (s : state),
    first :: rest = pre ++ l ->
    lw_loop (first :: rest) closed first
            (seq (List.length pre) (List.length l)) s =
    edge_moves (edges_from first closed l) s.
Proof.
  induction l as [|v l IH]; intros pre s Hsplit; [reflexivity|].
  assert (Hlen : List.length (first :: rest) =
                 (List.length pre + S (List.length l))%nat)
    by (rewrite Hsplit, length_app; reflexivity).
  assert (Hv : getitem (first :: rest) (List.length pre) = Ok v)
    by (rewrite Hsplit; apply getitem_app).
  assert (H0 : List.length pre = 0%nat -> first = v).
  { intros E; destruct pre; [|discriminate]. now injection Hsplit. }
  cbn [List.length seq lw_loop edges_from].
  cbn [List.length] in Hlen; rewrite Hlen.
  destruct l as [|w l'].
  - cbn [List.length].
    replace (List.length pre + 1)%nat with (S (List.length pre)) by lia.
    replace (List.length pre + 1)%nat with (S (List.length pre)) by lia.
    rewrite Nat.Div0.mod_same; cbn [Nat.eqb andb].
    destruct closed; cbn [negb]; [|reflexivity].
    cbn [seq lw_loop edge_moves].
    now rewrite (lw_body_edge _ first v first) by trivial.
  - assert (Hw : getitem (first :: rest) (List.length pre + 1) = Ok w).
    { rewrite Hsplit.
      replace (pre ++ v :: w :: l') with ((pre ++ [v]) ++ w :: l')
        by (now rewrite <- app_assoc).
      replace (List.length pre + 1)%nat with (List.length (pre ++ [v]))
        by (rewrite length_app; reflexivity).
      apply getitem_app. }
    rewrite Nat.mod_small by (cbn [List.length]; lia).
    replace (Nat.eqb (List.length pre + 1) 0) with false
      by (symmetry; apply Nat.eqb_neq; lia).
    cbn [andb edge_moves].
    rewrite (lw_body_edge _ first v w) by trivial.
    destruct (edge_move (v, w) s) as [s1|e]; [|reflexivity].
    cbn [bind].
    specialize (IH (pre ++ [v]) s1).
    rewrite length_app in IH; cbn [List.length] in IH.
    replace (List.length pre + 1)%nat with (S (List.length pre)) in IH by lia.
    apply IH; rewrite Hsplit; now rewrite <- app_assoc.
Qed.

(** Given the list of points, lines 106-128 are a rapid to the first
    vertex followed by one move for each vertex pair, in order. *)
Lemma lw_path_edges (points : list vertex) (closed : bool) (s : state) :
  lw_path points closed s =
  match points with
  | [] => Ok s
  | first :: _ =>
      edge_moves (edges points closed) (rapid_move (vx first) (vy first) s)
  end.
Proof.
  destruct points as [|first rest]; [reflexivity|].
  unfold lw_path, edges.
  apply (lw_loop_edges first rest closed (first :: rest) []); reflexivity.
Qed.

Lemma edges_from_length (first : vertex) (closed : bool) (l : list vertex) :
  List.length (edges_from first closed l) =
  if closed then List.length l else (List.length l - 1)%nat.
Proof.
  induction l as [|v l IH]; [now destruct closed|].
  cbn [edges_from]; destruct l as [|w l'].
  - now destruct closed.
  - cbn [List.length] in *; rewrite IH; destruct closed; lia.
Qed.

Lemma edges_length (points : list vertex) (closed : bool) :
  List.length (edges points closed) =
  if closed then List.length points else (List.length points - 1)%nat.
Proof.
  destruct points as [|first rest]; [now destruct closed|].
  apply edges_from_length.
Qed.

(** ** Arc reconstruction from a bulge *)

Lemma sin_half_angle (b : R) :
  sin (4 * atan b / 2) = 2 * b / (1 + b * b).
Proof.
  replace (4 * atan b / 2) with (2 * atan b) by lra.
  rewrite sin_2a.
  pose proof (atan_bound b) as [Hlo Hhi].
  assert (Hc : 0 < cos (atan b)) by (apply cos_gt_0; lra).
  assert (Hs : sin (atan b) = b * cos (atan b)).
  { rewrite <- (tan_atan b) at 2; unfold tan; field; lra. }
  pose proof (sin2_cos2 (atan b)) as H1; unfold Rsqr in H1.
  rewrite Hs in H1 |- *.
  assert (Hb : 0 < 1 + b * b) by nra.
  apply Rmult_eq_reg_r with (1 + b * b); [|lra].
  replace (2 * b / (1 + b * b) * (1 + b * b)) with (2 * b) by (field; lra).
  replace (2 * (b * cos (atan b)) * cos (atan b) * (1 + b * b))
    with (2 * b * (b * cos (atan b) * (b * cos (atan b)) +
                   cos (atan b) * cos (atan b))) by ring.
  rewrite H1; ring.
Qed.

Lemma sin_half_angle_neq_0 (b : R) :
  b <> 0 -> 2 * sin (4 * atan b / 2) <> 0.
Proof.
  intros Hb; rewrite sin_half_angle.
  assert (H : 0 < 1 + b * b) by nra.
  intros E; apply Hb.
  apply Rmult_eq_compat_r with (r := 1 + b * b) in E.
  replace (2 * (2 * b / (1 + b * b)) * (1 + b * b)) with (4 * b) in E
    by (field; lra).
  lra.
Qed.

Lemma sum_squares_pos (a b : R) : (a <> 0 \/ b <> 0) -> 0 < a * a + b * b.
Proof. intros [H|H]; nra. Qed.


Lemma vec_neq (p q : vec) :
  p <> q -> Vec2.x p - Vec2.x q <> 0 \/ Vec2.y p - Vec2.y q <> 0.
Proof.
  destruct p as [px py], q as [qx qy]; simpl; intros H.
  destruct (Req_dec px qx) as [Ex|Ex]; [|left; lra].
  destruct (Req_dec py qy) as [Ey|Ey]; [|right; lra].
  subst; now contradict H.
Qed.

Lemma distance_pos (p q : vec) : p <> q -> 0 < Vec2.distance p q.
Proof.
  intros H; unfold Vec2.distance, Vec2.magnitude, Vec2.sub; simpl.
  apply sqrt_lt_R0, sum_squares_pos, vec_neq, H.
Qed.

Lemma distance_same (p : vec) : Vec2.distance p p = 0.
Proof.
  unfold Vec2.distance, Vec2.magnitude, Vec2.sub; simpl.
  replace (_ + _) with 0 by ring; apply sqrt_0.
Qed.

Lemma chord_normal_magnitude (p1 p2 : vec) :
  Vec2.magnitude (Vec2.orthogonal (Vec2.sub p2 p1)) = Vec2.distance p1 p2.
Proof.
  unfold Vec2.distance, Vec2.magnitude, Vec2.orthogonal, Vec2.sub; simpl.
  f_equal; ring.
Qed.

Lemma bulge_to_arc_ok (p1 p2 : vec) (b : R) :
  b <> 0 -> p1 <> p2 ->
  bulge_to_arc p1 p2 b = Ok (arc_radius p1 p2 b, arc_center p1 p2 b).
Proof.
  intros Hb Hp; unfold bulge_to_arc, Vec2.normalize, pydiv.
  destruct (Req_EM_T (2 * sin (4 * atan b / 2)) 0) as [E|_];
    [now apply sin_half_angle_neq_0 in E|].
  cbn [bind].
  destruct (Req_EM_T _ 0) as [E|_]; [|reflexivity].
  rewrite chord_normal_magnitude in E.
  pose proof (distance_pos p1 p2 Hp); lra.
Qed.

Lemma bulge_to_arc_same_point (p : vec) (b : R) :
  bulge_to_arc p p b = Raise ZeroDivisionError.
Proof.
  unfold bulge_to_arc, Vec2.normalize, pydiv.
  destruct (Req_EM_T (2 * sin (4 * atan b / 2)) 0) as [E|_]; [reflexivity|].
  cbn [bind].
  rewrite chord_normal_magnitude, distance_same.
  destruct (Req_EM_T 0 0) as [_|E]; [reflexivity | now contradict E].
Qed.


Lemma ltb_true (a b : R) : a < b -> ltb a b = true.
Proof. intros H; unfold ltb; destruct (Rlt_dec a b); [reflexivity | contradiction]. Qed.

Lemma ltb_false (a b : R) : b <= a -> ltb a b = false.
Proof. intros H; unfold ltb; destruct (Rlt_dec a b); [lra | reflexivity]. Qed.

Lemma gtb_true (a b : R) : a > b -> gtb a b = true.
Proof. intros H; unfold gtb; destruct (Rgt_dec a b); [reflexivity | contradiction]. Qed.

Lemma gtb_false (a b : R) : a <= b -> gtb a b = false.
Proof. intros H; unfold gtb; destruct (Rgt_dec a b); [lra | reflexivity]. Qed.



Lemma distance_origin_10 : Vec2.distance V(0, 0) V(10, 0) = 10.
Proof.
  unfold Vec2.distance, Vec2.magnitude, Vec2.sub; simpl.
  replace (_ + _) with (10 * 10) by ring.
  apply sqrt_square; lra.
Qed.

Lemma origin_neq_10 : V(0, 0) <> V(10, 0).
Proof. intros [= H]; lra. Qed.

(** The pair [(0,0)], [(10,0)] with bulge [1] is a half circle of radius
    [5] about [(5,0)], drawn counterclockwise. *)
Lemma bulge_one_half_circle :
  4 * atan 1 = PI /\
  bulge_to_arc V(0, 0) V(10, 0) 1 = Ok (5, V(5, 0)) /\
  ltb 1 0 = false.
Proof.
  assert (Ha : 4 * atan 1 / 2 = PI / 2) by (rewrite atan_1; field).
  split; [rewrite atan_1; field|]; split; [|apply ltb_false; lra].
  rewrite bulge_to_arc_ok by (lra || exact origin_neq_10).
  unfold arc_center; rewrite chord_normal_magnitude.
  unfold arc_radius; rewrite Ha, sin_PI2, cos_PI2, distance_origin_10.
  unfold Vec2.add, Vec2.half, Vec2.mul, Vec2.orthogonal, Vec2.sub; simpl.
  do 2 f_equal; [field | f_equal; field].
Qed.









(** ** Reading of the file *)

(** C9: when [ezdxf.readfile] raises, [process_dxf] reports failure and
    leaves the converter, its line list included, as it was. *)
Theorem unreadable_file_emits_nothing (e : exn) (s : state) :
  process_dxf (Raise e) s = Ok (false, s) /\
  forall b s', process_dxf (Raise e) s = Ok (b, s') ->
               b = false /\ gcode s' = gcode s.
Proof.
  split; [reflexivity|].
  simpl; intros b s' [= <- <-]; now split.
Qed.

(** ** Circles *)

(** C6: [process_circle] writes a rapid to [(cx + r, cy)] and two clockwise
    arcs about the centre, the first to [(cx - r, cy)] and the second back
    to the point of the rapid; the circle of centre [(5,5)] and radius [3]
    alone in a drawing gives the five lines of the example. *)
Theorem circle_is_two_clockwise_arcs :
  (forall (c : vec) (r : R) (s : state),
     gcode (process_circle c r s) =
     gcode s ++ (if laser_on s then [M5] else []) ++
     [G0 (Vec2.x c + r) (Vec2.y c);
      M4 (power s);
      G2 (Vec2.x c - r) (Vec2.y c) (- r) 0 (feed_rate s);
      G2 (Vec2.x c + r) (Vec2.y c) r 0 (feed_rate s)] /\
     current_pos (process_circle c r s) = V(Vec2.x c + r, Vec2.y c)) /\
  (forall p f rr : Z,
     exists s',
       process_dxf (Ok [CIRCLE V(5, 5) 3]) (init p f rr) = Ok (true, s') /\
       gcode s' =
       [G0 8 5; M4 p; G2 2 5 (-3) 0 f; G2 8 5 3 0 f; M5]).
Proof.
  split.
  - intros c r s; unfold process_circle.
    rewrite !arc_move_spec, rapid_move_spec; unfold on_lines, arc_line, off_lines.
    cbn [gcode current_pos laser_on power feed_rate Vec2.x Vec2.y].
    split; [|reflexivity].
    rewrite <- !app_assoc; cbn [app].
    do 2 f_equal.
    repeat (f_equal; try ring).
  - intros p f rr; eexists; split.
    + cbv [process_dxf process_entities process_entity bind]; reflexivity.
    + rewrite laser_off_spec; unfold process_circle.
      rewrite !arc_move_spec, rapid_move_spec;
        unfold on_lines, arc_line, off_lines, init.
      cbn [gcode current_pos laser_on power feed_rate Vec2.x Vec2.y app].
      repeat (f_equal; try ring).
Qed.

(** ** Polylines *)

Lemma cut_count_app (l1 l2 : list cmd) :
  cut_count (l1 ++ l2) = (cut_count l1 + cut_count l2)%nat.
Proof. unfold cut_count; now rewrite filter_app, length_app. Qed.

Lemma cut_count_on_lines (s : state) (c : cmd) :
  is_cut c = true -> cut_count (on_lines s ++ [c]) = 1%nat.
Proof.
  intros Hc; unfold on_lines, cut_count; destruct (laser_on s); simpl;
    now rewrite Hc.
Qed.

Lemma cut_count_rapid (s : state) (x y : R) :
  cut_count (off_lines s ++ [G0 x y]) = 0%nat.
Proof. unfold off_lines; now destruct (laser_on s). Qed.

(** A pair with a chord, or drawn straight, gives exactly one cut. *)
Lemma edge_move_one_cut (e : vertex * vertex) (s : state) :
  has_chord e ->
  exists s' out,
    edge_move e s = Ok s' /\ gcode s' = gcode s ++ out /\
    cut_count out = 1%nat.
Proof.
  destruct e as [v w]; unfold has_chord, edge_move; cbn [fst snd]; intros H.
  unfold ltb at 1; destruct (Rlt_dec (Rabs (vbulge v)) 0.001) as [Hs|Hb].
  - eexists; eexists; split; [reflexivity|].
    rewrite linear_move_spec; cbn [gcode]; split; [reflexivity|].
    now apply cut_count_on_lines.
  - destruct H as [H|H]; [contradiction|].
    assert (Hb0 : vbulge v <> 0)
      by (intros E; apply Hb; rewrite E, Rabs_R0; lra).
    rewrite (bulge_to_arc_ok _ _ _ Hb0 H); cbn [bind snd].
    eexists; eexists; split; [reflexivity|].
    rewrite arc_move_spec; cbn [gcode]; split; [reflexivity|].
    apply cut_count_on_lines, arc_line_is_cut.
Qed.

Lemma edge_moves_count (es : list (vertex * vertex)) :
  forall s : state,
    Forall has_chord es ->
    exists s' out,
      edge_moves es s = Ok s' /\ gcode s' = gcode s ++ out /\
      cut_count out = List.length es.
Proof.
  induction es as [|e es IH]; intros s H.
  - exists s, []; repeat split; now rewrite app_nil_r.
  - inversion H as [|? ? He Hes]; subst.
    destruct (edge_move_one_cut e s He) as [s1 [o1 [E1 [G1' C1]]]].
    destruct (IH s1 Hes) as [s2 [o2 [E2 [G2' C2]]]].
    exists s2, (o1 ++ o2); cbn [edge_moves]; rewrite E1; cbn [bind].
    repeat split; trivial.
    + now rewrite G2', G1', app_assoc.
    + rewrite cut_count_app, C1, C2; reflexivity.
Qed.

(** Given the list of points, lines 106-128 write one cut for each vertex
    pair, [N] when closed and [N - 1] when open, provided every pair drawn
    as an arc has distinct end points. *)
Lemma lw_path_segment_count (points : list vertex) (closed : bool) (s : state) :
  Forall has_chord (edges points closed) ->
  exists s' out,
    lw_path points closed s = Ok s' /\
    gcode s' = gcode s ++ out /\
    cut_count out =
      if closed then List.length points else (List.length points - 1)%nat.
Proof.
  intros H; rewrite lw_path_edges, <- edges_length.
  destruct points as [|first rest].
  - exists s, []; repeat split; now rewrite app_nil_r.
  - destruct (edge_moves_count _ (rapid_move (vx first) (vy first) s) H)
      as [s' [out [E [G C]]]].
    exists s', ((off_lines s ++ [G0 (vx first) (vy first)]) ++ out).
    repeat split; trivial.
    + rewrite G, rapid_move_spec; cbn [gcode]; now rewrite !app_assoc.
    + now rewrite cut_count_app, cut_count_rapid, C.
Qed.

(** There, a pair drawn as an arc with coinciding end points stops the
    loop with the exception of [normalize]. *)
Lemma lw_path_arc_without_chord (x y b : R) (s : state) :
  0.001 <= Rabs b ->
  lw_path [mkVertex x y 0 0 b] true s = Raise ZeroDivisionError.
Proof.
  intros Hb; rewrite lw_path_edges.
  cbn [edges edges_from edge_moves edge_move vbulge].
  rewrite ltb_false by exact Hb.
  now rewrite bulge_to_arc_same_point.
Qed.

Lemma edge_move_straight (e : vertex * vertex) (s : state) :
  Rabs (vbulge (fst e)) < 0.001 ->
  edge_move e s = Ok (linear_move (vx (snd e)) (vy (snd e)) s).
Proof.
  destruct e as [v w]; cbn [fst snd]; intros H; unfold edge_move.
  now rewrite ltb_true.
Qed.

(** The loop has no test on the length of a pair: given the points
    [(0,0)], [(0,0)], [(10,0)], it writes a [G1] to the point the tool is
    at. *)
Lemma lw_path_cuts_zero_length_pair :
  exists s',
    lw_path stalled_polyline false default_init = Ok s' /\
    gcode s' = [G0 0 0; M4 1000; G1 0 0 6000; G1 10 0 6000].
Proof.
  eexists; split.
  - rewrite lw_path_edges.
    cbn [stalled_polyline edges edges_from edge_moves vx vy].
    rewrite edge_move_straight by (cbn [fst vbulge]; rewrite Rabs_R0; lra).
    cbn [bind].
    rewrite edge_move_straight by (cbn [fst vbulge]; rewrite Rabs_R0; lra).
    cbn [bind snd vx vy]; reflexivity.
  - rewrite !linear_move_spec, rapid_move_spec; reflexivity.
Qed.

(** C7, at the failing input: [list(entity.points())] raises [TypeError]
    on every LWPOLYLINE entity, whatever its points and its closed flag,
    before anything is written; a drawing that holds the open polyline
    from [(0,0)] to [(10,0)], or the closed one, makes the run raise,
    where one and two segments are due. *)
Theorem polyline_conversion_raises :
  (forall (points : list vertex) (closed : bool) (s : state),
     process_lwpolyline points closed s = Raise TypeError) /\
  process_dxf (Ok [LWPOLYLINE (pair_polyline 0) false]) default_init =
    Raise TypeError /\
  process_dxf (Ok [LWPOLYLINE (pair_polyline 0) true]) default_init =
    Raise TypeError.
Proof. repeat split. Qed.


(** ** Rapids to the start of an entity *)

(** [process_line] writes its rapid only when the start is further than
    1e-3 from the current position. *)
Lemma process_line_rapid (a b : vec) (s : state) :
  (Vec2.distance (current_pos s) a > 0.001 ->
   process_line a b s =
   linear_move (Vec2.x b) (Vec2.y b) (rapid_move (Vec2.x a) (Vec2.y a) s)) /\
  (Vec2.distance (current_pos s) a <= 0.001 ->
   process_line a b s = linear_move (Vec2.x b) (Vec2.y b) s).
Proof.
  unfold process_line; split; intros H.
  - now rewrite gtb_true.
  - now rewrite gtb_false.
Qed.

(** [process_arc] does the same. *)
Lemma process_arc_rapid (c : vec) (r sa ea : R) (s : state) :
  let start := V(Vec2.x c + r * cos (radians sa),
                 Vec2.y c + r * sin (radians sa)) in
  let stop := V(Vec2.x c + r * cos (radians ea),
                Vec2.y c + r * sin (radians ea)) in
  (Vec2.distance (current_pos s) start > 0.001 ->
   process_arc c r sa ea s =
   arc_move (Vec2.x stop) (Vec2.y stop) (Vec2.x c) (Vec2.y c) false
            (rapid_move (Vec2.x start) (Vec2.y start) s)) /\
  (Vec2.distance (current_pos s) start <= 0.001 ->
   process_arc c r sa ea s =
   arc_move (Vec2.x stop) (Vec2.y stop) (Vec2.x c) (Vec2.y c) false s).
Proof.
  unfold process_arc; split; intros H.
  - now rewrite gtb_true.
  - now rewrite gtb_false.
Qed.

(** C3, at the failing input: with the tool at [(0,0)], the circle through
    [(0,0)] (centre [(-3,0)], radius [3]) starts with a rapid to [(0,0)],
    where the tool already is; the line from [(0,0)] to [(10,0)] starts
    with none. *)
Theorem rapid_to_current_position :
  Vec2.distance (current_pos default_init) V(0, 0) <= 0.001 /\
  (exists s',
     process_dxf (Ok [CIRCLE V(-3, 0) 3]) default_init = Ok (true, s') /\
     gcode s' =
       [G0 0 0; M4 1000; G2 (-6) 0 (-3) 0 6000; G2 0 0 3 0 6000; M5]) /\
  (exists s',
     process_dxf (Ok [LINE V(0, 0) V(10, 0)]) default_init = Ok (true, s') /\
     gcode s' = [M4 1000; G1 10 0 6000; M5]).
Proof.
  assert (Hd : Vec2.distance (current_pos default_init) V(0, 0) <= 0.001).
  { cbn [default_init init current_pos]; rewrite distance_same; lra. }
  split; [exact Hd|]; split.
  - eexists; split.
    + cbv [process_dxf process_entities process_entity bind]; reflexivity.
    + rewrite laser_off_spec; unfold process_circle.
      rewrite !arc_move_spec, rapid_move_spec;
        unfold on_lines, arc_line, off_lines, default_init, init.
      cbn [gcode current_pos laser_on power feed_rate Vec2.x Vec2.y app].
      repeat (f_equal; try ring).
  - eexists; split.
    + cbv [process_dxf process_entities process_entity bind].
      rewrite (proj2 (process_line_rapid _ _ _) Hd); reflexivity.
    + rewrite laser_off_spec, linear_move_spec; reflexivity.
Qed.

(** ** The energization discipline of a run *)

Lemma sample_drawing_run :
  process_dxf (Ok sample_drawing) default_init = Ok (true, after_sample_drawing).
Proof.
  cbv [process_dxf sample_drawing process_entities process_entity bind].
  rewrite (proj2 (process_line_rapid _ _ _))
    by (cbn [default_init init current_pos]; rewrite distance_same; lra).
  cbn [Vec2.x Vec2.y]; unfold after_sample_drawing.
  reflexivity.
Qed.

(** C1: in the lines appended by a run of [process_dxf] that starts with the
    laser flag off, no rapid is read while the tool is energized, and the
    tool is off after the last line; [rapid_move] itself writes [M5] before
    its [G0] exactly when the flag is on. *)
Theorem rapids_deenergized_and_off_at_end
    (doc : result (list entity)) (s s' : state) (b : bool) :
  laser_on s = false ->
  process_dxf doc s = Ok (b, s') ->
  exists out,
    gcode s' = gcode s ++ out /\
    rapids_deenergized out = true /\
    no_rapid_while_energized out /\
    energized_after out = false /\
    (forall x y s1,
       gcode (rapid_move x y s1) =
       gcode s1 ++ (if laser_on s1 then [M5] else []) ++ [G0 x y]).
Proof.
  intros Hoff Hrun.
  destruct (process_dxf_run energy_step (fun on => on) doc s s' b) as [out [Hg Hr]];
    trivial.
  - intros c Hc; destruct c; simpl in *; congruence.
  - intros p c Hc; destruct c; simpl in *; congruence.
  - exists out; unfold rapids_deenergized, energized_after; rewrite Hr.
    repeat split; trivial.
    + exact (energy_rapids out false Hr).
    + intros x y s1; now rewrite rapid_move_spec.
Qed.

Lemma rapids_deenergized_and_off_at_end_witness :
  exists out,
    gcode after_sample_drawing = gcode default_init ++ out /\
    rapids_deenergized out = true /\
    no_rapid_while_energized out /\
    energized_after out = false /\
    (forall x y s1,
       gcode (rapid_move x y s1) =
       gcode s1 ++ (if laser_on s1 then [M5] else []) ++ [G0 x y]).
Proof.
  apply (rapids_deenergized_and_off_at_end (Ok sample_drawing) default_init
           after_sample_drawing true); [reflexivity | exact sample_drawing_run].
Defined.

Lemma effective_no_repeat (l : list cmd) :
  forall (on : bool) (last : option bool),
    (forall t, last = Some t -> t = on) ->
    run toggle_step on l <> None ->
    run repeat_step last l <> None.
Proof.
  induction l as [|c l IH]; intros on last Hlast; simpl; [discriminate|].
  destruct c; simpl.
  - apply IH, Hlast.
  - destruct on; [|congruence].
    destruct last as [[|]|]; try (apply IH; now intros t [= <-]).
    now specialize (Hlast false eq_refl).
  - destruct on; [congruence|].
    destruct last as [[|]|]; try (apply IH; now intros t [= <-]).
    now specialize (Hlast true eq_refl).
  - apply IH; discriminate.
  - apply IH; discriminate.
  - apply IH; discriminate.
  - apply IH; discriminate.
Qed.

(** C8: in the lines appended by a run of [process_dxf] that starts with the
    laser flag off, every [M4] is read with the tool off and every [M5] with
    the tool on; no toggle is repeated without a cut or rapid in between:
    a cut or a rapid stands between any two [M4] and between any two
    [M5]. *)
Theorem toggles_change_state
    (doc : result (list entity)) (s s' : state) (b : bool) :
  laser_on s = false ->
  process_dxf doc s = Ok (b, s') ->
  exists out,
    gcode s' = gcode s ++ out /\
    toggles_effective out = true /\
    no_repeated_toggle out = true /\
    motion_between_ons out /\
    motion_between_offs out.
Proof.
  intros Hoff Hrun.
  destruct (process_dxf_run toggle_step (fun on => on) doc s s' b)
    as [out [Hg Hr]]; trivial.
  - intros c Hc; destruct c; simpl in *; congruence.
  - intros p c Hc; destruct c; simpl in *; congruence.
  - destruct (process_dxf_run pending_step (fun _ => false) doc s s' b)
      as [out' [Hg' Hp]]; trivial.
    + intros c Hc; destruct c; simpl in *; congruence.
    + intros p c Hc; simpl; now rewrite Hc.
    + assert (out' = out) as ->
        by (apply (app_inv_head (gcode s)); congruence).
      pose proof (pending_cut_after_on out Hp) as Hcut.
      exists out; unfold toggles_effective, no_repeated_toggle; rewrite Hr.
      repeat split; trivial.
      * destruct (run repeat_step None out) eqn:E; [reflexivity|].
        exfalso; revert E.
        apply (effective_no_repeat out false None); [discriminate | congruence].
      * now apply cut_after_on_between_ons.
      * now apply (between_offs out false).
Qed.

Lemma toggles_change_state_witness :
  exists out,
    gcode after_sample_drawing = gcode default_init ++ out /\
    toggles_effective out = true /\
    no_repeated_toggle out = true /\
    motion_between_ons out /\
    motion_between_offs out.
Proof.
  apply (toggles_change_state (Ok sample_drawing) default_init
           after_sample_drawing true); [reflexivity | exact sample_drawing_run].
Defined.

(** C10: in the lines appended by a run of [process_dxf], every [M4] is
    directly followed by a cut ([G1], [G2] or [G3]); in particular [M4] is
    never the last line and never followed by [G0] or [M5]. *)
Theorem on_then_cut
    (doc : result (list entity)) (s s' : state) (b : bool) :
  laser_on s = false ->
  process_dxf doc s = Ok (b, s') ->
  exists out,
    gcode s' = gcode s ++ out /\
    on_followed_by_cut out = true /\
    cut_after_every_on out.
Proof.
  intros Hoff Hrun.
  destruct (process_dxf_run pending_step (fun _ => false) doc s s' b)
    as [out [Hg Hr]]; trivial.
  - intros c Hc; destruct c; simpl in *; congruence.
  - intros p c Hc; simpl; now rewrite Hc.
  - exists out; unfold on_followed_by_cut; rewrite Hr.
    repeat split; trivial.
    now apply pending_cut_after_on.
Qed.

Lemma on_then_cut_witness :
  exists out,
    gcode after_sample_drawing = gcode default_init ++ out /\
    on_followed_by_cut out = true /\
    cut_after_every_on out.
Proof.
  apply (on_then_cut (Ok sample_drawing) default_init after_sample_drawing true);
    [reflexivity | exact sample_drawing_run].
Defined.

(** * Further properties of the converter *)

(** ** Settings *)

Lemma moves_settings (s0 s : state) :
  moves s0 s ->
  exists out,
    gcode s = gcode s0 ++ out /\
    forallb (carries_settings (power s0) (feed_rate s0)) out = true /\
    power s = power s0 /\ feed_rate s = feed_rate s0 /\
    rapid_rate s = rapid_rate s0.
Proof.
  induction 1 as [|s _ [out [Hg [Hf [Hp [Hfe Hr]]]]]
                 |s x y _ [out [Hg [Hf [Hp [Hfe Hr]]]]]
                 |s x y _ [out [Hg [Hf [Hp [Hfe Hr]]]]]
                 |s x y cx cy cw _ [out [Hg [Hf [Hp [Hfe Hr]]]]]].
  - exists []; repeat split; now rewrite app_nil_r.
  - exists (out ++ off_lines s); rewrite laser_off_spec; cbn [gcode power feed_rate rapid_rate].
    repeat split; trivial; [now rewrite Hg, app_assoc|].
    rewrite forallb_app, Hf; unfold off_lines; now destruct (laser_on s).
  - exists (out ++ off_lines s ++ [G0 x y]); rewrite rapid_move_spec;
      cbn [gcode power feed_rate rapid_rate].
    repeat split; trivial; [now rewrite Hg, <- app_assoc|].
    rewrite !forallb_app, Hf; unfold off_lines; now destruct (laser_on s).
  - exists (out ++ on_lines s ++ [G1 x y (feed_rate s)]); rewrite linear_move_spec;
      cbn [gcode power feed_rate rapid_rate].
    repeat split; trivial; [now rewrite Hg, <- app_assoc|].
    rewrite !forallb_app, Hf; unfold on_lines; rewrite Hp, Hfe.
    destruct (laser_on s); cbn; now rewrite ?Z.eqb_refl.
  - exists (out ++ on_lines s ++ [arc_line x y cx cy cw s]); rewrite arc_move_spec;
      cbn [gcode power feed_rate rapid_rate].
    repeat split; trivial; [now rewrite Hg, <- app_assoc|].
    rewrite !forallb_app, Hf; unfold on_lines, arc_line; rewrite Hp, Hfe.
    destruct (laser_on s), cw; cbn; now rewrite ?Z.eqb_refl.
Qed.

(** X1: a run of [process_dxf] never changes the power, the feed rate or
    the rapid rate of the converter; every [M4] it writes carries that
    power and every cut that feed rate. *)
Theorem run_carries_settings
    (doc : result (list entity)) (s s' : state) (b : bool) :
  process_dxf doc s = Ok (b, s') ->
  exists out,
    gcode s' = gcode s ++ out /\
    forallb (carries_settings (power s) (feed_rate s)) out = true /\
    power s' = power s /\ feed_rate s' = feed_rate s /\
    rapid_rate s' = rapid_rate s.
Proof.
  intros Hrun.
  destruct (process_dxf_moves _ _ _ _ Hrun)
    as [[e [_ [_ ->]]]|[msp [s1 [_ [_ [Hm ->]]]]]].
  - exists []; repeat split; now rewrite app_nil_r.
  - exact (moves_settings s (laser_off s1) (moves_off _ _ Hm)).
Qed.

Lemma run_carries_settings_witness :
  exists out,
    gcode after_sample_drawing = gcode default_init ++ out /\
    forallb (carries_settings (power default_init) (feed_rate default_init))
            out = true /\
    power after_sample_drawing = power default_init /\
    feed_rate after_sample_drawing = feed_rate default_init /\
    rapid_rate after_sample_drawing = rapid_rate default_init.
Proof.
  exact (run_carries_settings (Ok sample_drawing) default_init
           after_sample_drawing true sample_drawing_run).
Defined.

(** ** The rapid rate *)

Lemma laser_off_rapid_rate (r : Z) (s : state) :
  laser_off (set_rapid_rate r s) = set_rapid_rate r (laser_off s).
Proof. destruct s as [p f rr g pos on]; destruct on; reflexivity. Qed.

Lemma rapid_move_rapid_rate (r : Z) (x y : R) (s : state) :
  rapid_move x y (set_rapid_rate r s) = set_rapid_rate r (rapid_move x y s).
Proof. destruct s as [p f rr g pos on]; destruct on; reflexivity. Qed.

Lemma linear_move_rapid_rate (r : Z) (x y : R) (s : state) :
  linear_move x y (set_rapid_rate r s) = set_rapid_rate r (linear_move x y s).
Proof. destruct s as [p f rr g pos on]; destruct on; reflexivity. Qed.

Lemma arc_move_rapid_rate (r : Z) (x y cx cy : R) (cw : bool) (s : state) :
  arc_move x y cx cy cw (set_rapid_rate r s) =
  set_rapid_rate r (arc_move x y cx cy cw s).
Proof. destruct s as [p f rr g pos on]; destruct on, cw; reflexivity. Qed.

Lemma process_entity_rapid_rate (r : Z) (e : entity) (s : state) :
  process_entity e (set_rapid_rate r s) =
  map_result (set_rapid_rate r) (process_entity e s).
Proof.
  destruct e as [a b|c rad|c rad sa ea|pts closed|name]; cbn [process_entity map_result].
  - unfold process_line; cbn [set_rapid_rate current_pos].
    destruct (gtb _ _);
      now rewrite ?rapid_move_rapid_rate, linear_move_rapid_rate.
  - unfold process_circle.
    now rewrite rapid_move_rapid_rate, !arc_move_rapid_rate.
  - unfold process_arc; cbn [set_rapid_rate current_pos].
    destruct (gtb _ _);
      now rewrite ?rapid_move_rapid_rate, arc_move_rapid_rate.
  - now rewrite !process_lwpolyline_raises.
  - reflexivity.
Qed.

Lemma process_entities_rapid_rate (r : Z) (msp : list entity) :
  forall s : state,
    process_entities msp (set_rapid_rate r s) =
    map_result (set_rapid_rate r) (process_entities msp s).
Proof.
  induction msp as [|e msp IH]; intros s; [reflexivity|].
  cbn [process_entities]; rewrite process_entity_rapid_rate.
  destruct (process_entity e s) as [s1|x]; [|reflexivity].
  cbn [map_result bind]; apply IH.
Qed.

(** X2: the rapid rate has no effect on a run: with another rapid rate the
    converter returns the same flag or raises the same exception, and
    holds the same lines, position and laser flag. *)
Theorem rapid_rate_is_unused
    (r : Z) (doc : result (list entity)) (s : state) :
  process_dxf doc (set_rapid_rate r s) =
  map_result (fun bs => (fst bs, set_rapid_rate r (snd bs)))
             (process_dxf doc s) /\
  (forall b s', process_dxf doc (set_rapid_rate r s) = Ok (b, s') ->
     exists s1, process_dxf doc s = Ok (b, s1) /\ gcode s' = gcode s1).
Proof.
  assert (E : process_dxf doc (set_rapid_rate r s) =
              map_result (fun bs => (fst bs, set_rapid_rate r (snd bs)))
                         (process_dxf doc s)).
  { destruct doc as [msp|e]; cbn [process_dxf map_result]; [|reflexivity].
    rewrite process_entities_rapid_rate.
    destruct (process_entities msp s) as [s1|x]; [|reflexivity].
    cbn [map_result bind fst snd]; now rewrite laser_off_rapid_rate. }
  split; [exact E|].
  intros b s'; rewrite E.
  destruct (process_dxf doc s) as [[b1 s1]|x]; [|discriminate].
  cbn [map_result fst snd]; intros [= <- <-].
  now exists s1.
Qed.

(** ** Entities that write nothing *)

Lemma unsupported_entity (e : entity) (s : state) :
  is_supported e = false -> process_entity e s = Ok s.
Proof.
  destruct e as [a b|c r|c r sa ea|pts closed|name]; try discriminate;
    reflexivity.
Qed.

(** X3: entities of a kind the converter has no branch for are passed
    over: a drawing and the same drawing without them give the same
    run. *)
Theorem unsupported_entities_are_skipped (msp : list entity) (s : state) :
  process_dxf (Ok (filter is_supported msp)) s = process_dxf (Ok msp) s.
Proof.
  cbn [process_dxf]; f_equal.
  revert s; induction msp as [|e msp IH]; intros s; [reflexivity|].
  cbn [filter process_entities].
  destruct (is_supported e) eqn:E.
  - cbn [process_entities].
    destruct (process_entity e s) as [s1|x]; [|reflexivity].
    cbn [bind]; apply IH.
  - rewrite (unsupported_entity e s E); cbn [bind]; apply IH.
Qed.

(** ** Counting cuts and rapids *)


Lemma rapid_count_on_lines (s : state) (c : cmd) :
  is_cut c = true -> rapid_count (on_lines s ++ [c]) = 0%nat.
Proof.
  intros Hc; unfold on_lines, rapid_count; destruct (laser_on s), c;
    try discriminate; reflexivity.
Qed.


Lemma linear_move_one_cut (x y : R) (s : state) :
  exists out, gcode (linear_move x y s) = gcode s ++ out /\ one_cut out.
Proof.
  eexists; rewrite linear_move_spec; split; [reflexivity|]; split.
  - now apply cut_count_on_lines.
  - now apply rapid_count_on_lines.
Qed.

Lemma arc_move_one_cut (x y cx cy : R) (cw : bool) (s : state) :
  exists out, gcode (arc_move x y cx cy cw s) = gcode s ++ out /\ one_cut out.
Proof.
  eexists; rewrite arc_move_spec; split; [reflexivity|]; split.
  - apply cut_count_on_lines, arc_line_is_cut.
  - apply rapid_count_on_lines, arc_line_is_cut.
Qed.

Lemma b2n_drawn (e : entity) :
  always_rapid e = true -> is_drawn e = true.
Proof. destruct e as [| | |[|v pts] closed|]; try discriminate; reflexivity. Qed.








(** ** Connected lines *)

Lemma connected_lines_on (lines : list (vec * vec)) :
  forall s : state,
    laser_on s = true ->
    connected (current_pos s) lines ->
    exists s',
      process_entities (map line_entity lines) s = Ok s' /\
      gcode s' = gcode s ++ map (line_cut (feed_rate s)) lines /\
      laser_on s' = true.
Proof.
  induction lines as [|[a b] lines IH]; intros s Hon Hc.
  - exists s; repeat split; trivial; now rewrite app_nil_r.
  - destruct Hc as [Hd Hc]; cbn [fst snd] in Hd, Hc.
    cbn [map process_entities line_entity process_entity fst snd bind].
    rewrite (proj2 (process_line_rapid a b s) Hd).
    destruct (IH (linear_move (Vec2.x b) (Vec2.y b) s)) as [s' [E [G L]]].
    + now rewrite linear_move_spec.
    + rewrite linear_move_spec; cbn [current_pos]; now destruct b.
    + exists s'; repeat split; trivial.
      rewrite G, linear_move_spec; cbn [gcode feed_rate].
      unfold on_lines; rewrite Hon; cbn [app].
      now rewrite <- app_assoc.
Qed.

(** X6: lines that follow one another (each starting within 1e-3 of the
    point the tool is at) are cut in one burn: the run writes [M4] if the
    laser is off, one [G1] for each line, and [M5] at the end, with no
    rapid and no toggle in between. *)
Theorem connected_lines_one_burn (lines : list (vec * vec)) (s : state) :
  lines <> [] ->
  connected (current_pos s) lines ->
  exists s',
    process_dxf (Ok (map line_entity lines)) s = Ok (true, s') /\
    gcode s' =
    gcode s ++ (if laser_on s then [] else [M4 (power s)]) ++
    map (line_cut (feed_rate s)) lines ++ [M5].
Proof.
  destruct lines as [|[a b] lines]; [congruence|]; intros _ [Hd Hc].
  cbn [fst snd] in Hd, Hc.
  cbn [process_dxf map process_entities line_entity process_entity fst snd bind].
  rewrite (proj2 (process_line_rapid a b s) Hd).
  destruct (connected_lines_on lines (linear_move (Vec2.x b) (Vec2.y b) s))
    as [s' [E [G L]]].
  - now rewrite linear_move_spec.
  - rewrite linear_move_spec; cbn [current_pos]; now destruct b.
  - rewrite E; cbn [bind]; eexists; split; [reflexivity|].
    rewrite laser_off_spec; cbn [gcode]; unfold off_lines; rewrite L, G.
    rewrite linear_move_spec; cbn [gcode feed_rate]; unfold on_lines, line_cut.
    cbn [fst snd]; rewrite <- !app_assoc; reflexivity.
Qed.

Lemma connected_lines_one_burn_witness :
  exists s',
    process_dxf (Ok (map line_entity [(V(0, 0), V(10, 0)); (V(10, 0), V(10, 5))]))
                default_init = Ok (true, s') /\
    gcode s' = [M4 1000; G1 10 0 6000; G1 10 5 6000; M5].
Proof.
  apply (connected_lines_one_burn
           [(V(0, 0), V(10, 0)); (V(10, 0), V(10, 5))] default_init).
  - discriminate.
  - cbn [connected fst snd default_init init current_pos].
    rewrite !distance_same; repeat split; lra.
Defined.

(** ** Soundness of the arcs written *)

Lemma distance_dist_euc (a b : vec) :
  Vec2.distance a b = dist_euc (Vec2.x a) (Vec2.y a) (Vec2.x b) (Vec2.y b).
Proof. reflexivity. Qed.

Lemma distance_sym (a b : vec) : Vec2.distance a b = Vec2.distance b a.
Proof. rewrite !distance_dist_euc; apply distance_symm. Qed.

Lemma distance_triangle_diff (c p q : vec) :
  Rabs (Vec2.distance c p - Vec2.distance c q) <= Vec2.distance p q.
Proof.
  pose proof (triangle (Vec2.x c) (Vec2.y c) (Vec2.x p) (Vec2.y p)
                       (Vec2.x q) (Vec2.y q)) as H1.
  pose proof (triangle (Vec2.x c) (Vec2.y c) (Vec2.x q) (Vec2.y q)
                       (Vec2.x p) (Vec2.y p)) as H2.
  rewrite <- !distance_dist_euc in H1, H2.
  rewrite (distance_sym q p) in H1.
  apply Rabs_le; lra.
Qed.

Lemma track_app (pos : vec) (l1 l2 : list cmd) :
  track pos (l1 ++ l2) = track (track pos l1) l2.
Proof.
  revert pos; induction l1 as [|c l1 IH]; intros pos; [reflexivity|].
  destruct c; cbn [app track]; apply IH.
Qed.

Lemma radii_within_app (tol : R) (l1 l2 : list cmd) :
  forall pos : vec,
    radii_within tol pos l1 ->
    radii_within tol (track pos l1) l2 ->
    radii_within tol pos (l1 ++ l2).
Proof.
  induction l1 as [|c l1 IH]; intros pos H1 H2; [exact H2|].
  destruct c; cbn [app track radii_within] in *;
    try (apply IH; assumption);
    (destruct H1 as [Ha H1]; split; [exact Ha | now apply IH]).
Qed.

Lemma radii_within_mono (tol tol' : R) (l : list cmd) :
  tol <= tol' ->
  forall pos : vec, radii_within tol pos l -> radii_within tol' pos l.
Proof.
  intros Hle; induction l as [|c l IH]; intros pos H; [exact I|].
  destruct c; cbn [radii_within] in *; try (apply IH; assumption);
    (destruct H as [Ha H]; split; [lra | now apply IH]).
Qed.

Lemma sound_step_refl (tol : R) (s : state) : sound_step tol s s.
Proof. exists []; repeat split; now rewrite app_nil_r. Qed.

Lemma sound_step_trans (tol : R) (s1 s2 s3 : state) :
  sound_step tol s1 s2 -> sound_step tol s2 s3 -> sound_step tol s1 s3.
Proof.
  intros [o1 [G1' [R1 T1]]] [o2 [G2' [R2 T2]]].
  exists (o1 ++ o2); repeat split.
  - now rewrite G2', G1', app_assoc.
  - apply radii_within_app; [exact R1 | now rewrite T1].
  - now rewrite track_app, T1.
Qed.

Lemma sound_step_mono (tol tol' : R) (s s' : state) :
  tol <= tol' -> sound_step tol s s' -> sound_step tol' s s'.
Proof.
  intros Hle [o [G [Rr T]]]; exists o; repeat split; trivial.
  now apply (radii_within_mono tol).
Qed.

Lemma sound_laser_off (tol : R) (s : state) : sound_step tol s (laser_off s).
Proof.
  exists (off_lines s); rewrite laser_off_spec; cbn [gcode current_pos].
  unfold off_lines; destruct (laser_on s); repeat split.
Qed.

Lemma sound_rapid_move (tol : R) (x y : R) (s : state) :
  sound_step tol s (rapid_move x y s).
Proof.
  exists (off_lines s ++ [G0 x y]); rewrite rapid_move_spec;
    cbn [gcode current_pos].
  unfold off_lines; destruct (laser_on s); repeat split.
Qed.

Lemma sound_linear_move (tol : R) (x y : R) (s : state) :
  sound_step tol s (linear_move x y s).
Proof.
  exists (on_lines s ++ [G1 x y (feed_rate s)]); rewrite linear_move_spec;
    cbn [gcode current_pos].
  unfold on_lines; destruct (laser_on s); repeat split.
Qed.

Lemma sound_arc_move (tol : R) (x y cx cy : R) (cw : bool) (s : state) :
  Rabs (Vec2.distance V(cx, cy) (current_pos s) -
        Vec2.distance V(cx, cy) V(x, y)) <= tol ->
  sound_step tol s (arc_move x y cx cy cw s).
Proof.
  intros H.
  exists (on_lines s ++ [arc_line x y cx cy cw s]); rewrite arc_move_spec;
    cbn [gcode current_pos].
  assert (Harc : Rabs (sqrt ((cx - Vec2.x (current_pos s)) *
                             (cx - Vec2.x (current_pos s)) +
                             (cy - Vec2.y (current_pos s)) *
                             (cy - Vec2.y (current_pos s))) -
                       Vec2.distance
                         V(Vec2.x (current_pos s) + (cx - Vec2.x (current_pos s)),
                           Vec2.y (current_pos s) + (cy - Vec2.y (current_pos s)))
                         V(x, y)) <= tol).
  { replace (Vec2.x (current_pos s) + (cx - Vec2.x (current_pos s))) with cx
      by ring.
    replace (Vec2.y (current_pos s) + (cy - Vec2.y (current_pos s))) with cy
      by ring.
    exact H. }
  unfold on_lines, arc_line; destruct (laser_on s), cw;
    cbn [app radii_within track]; repeat split; exact Harc.
Qed.

Lemma circle_point_distance (c : vec) (r a : R) :
  Vec2.distance c V(Vec2.x c + r * cos a, Vec2.y c + r * sin a) = Rabs r.
Proof.
  rewrite <- sqrt_Rsqr_abs.
  unfold Vec2.distance, Vec2.magnitude, Vec2.sub, Rsqr; cbn [Vec2.x Vec2.y].
  f_equal.
  pose proof (sin2_cos2 a) as H; unfold Rsqr in H.
  replace ((Vec2.x c - (Vec2.x c + r * cos a)) *
           (Vec2.x c - (Vec2.x c + r * cos a)) +
           (Vec2.y c - (Vec2.y c + r * sin a)) *
           (Vec2.y c - (Vec2.y c + r * sin a)))
    with (r * r * (sin a * sin a + cos a * cos a)) by ring.
  rewrite H; ring.
Qed.

Lemma vec_eta (p : vec) : V(Vec2.x p, Vec2.y p) = p.
Proof. now destruct p. Qed.

Lemma Rabs_diff_same (a : R) : Rabs (a - a) <= 0.
Proof. replace (a - a) with 0 by ring; rewrite Rabs_R0; lra. Qed.

Lemma sound_process_line (a b : vec) (s : state) :
  sound_step 0 s (process_line a b s).
Proof.
  unfold process_line; destruct (gtb _ _).
  - eapply sound_step_trans; [apply sound_rapid_move | apply sound_linear_move].
  - apply sound_linear_move.
Qed.

Lemma sound_process_circle (c : vec) (r : R) (s : state) :
  sound_step 0 s (process_circle c r s).
Proof.
  unfold process_circle.
  eapply sound_step_trans; [apply sound_rapid_move|].
  eapply sound_step_trans; apply sound_arc_move;
    rewrite ?arc_move_spec, ?rapid_move_spec; cbn [current_pos];
    rewrite vec_eta.
  - replace V(Vec2.x c + r, Vec2.y c)
      with V(Vec2.x c + r * cos 0, Vec2.y c + r * sin 0)
      by (rewrite cos_0, sin_0; f_equal; ring).
    replace V(Vec2.x c - r, Vec2.y c)
      with V(Vec2.x c + r * cos PI, Vec2.y c + r * sin PI)
      by (rewrite cos_PI, sin_PI; f_equal; ring).
    rewrite !circle_point_distance; apply Rabs_diff_same.
  - replace V(Vec2.x c + r, Vec2.y c)
      with V(Vec2.x c + r * cos 0, Vec2.y c + r * sin 0)
      by (rewrite cos_0, sin_0; f_equal; ring).
    replace V(Vec2.x c - r, Vec2.y c)
      with V(Vec2.x c + r * cos PI, Vec2.y c + r * sin PI)
      by (rewrite cos_PI, sin_PI; f_equal; ring).
    rewrite !circle_point_distance; apply Rabs_diff_same.
Qed.

Lemma sound_process_arc (c : vec) (r sa ea : R) (s : state) :
  sound_step 0.001 s (process_arc c r sa ea s).
Proof.
  unfold process_arc, gtb.
  destruct (Rgt_dec _ _) as [Hfar|Hnear].
  - eapply sound_step_trans; [apply sound_rapid_move|].
    apply sound_arc_move; rewrite rapid_move_spec; cbn [current_pos].
    rewrite vec_eta, !circle_point_distance.
    pose proof (Rabs_diff_same (Rabs r)); lra.
  - apply sound_arc_move.
    rewrite vec_eta, (circle_point_distance c r (radians ea)),
      <- (circle_point_distance c r (radians sa)).
    eapply Rle_trans; [apply distance_triangle_diff | lra].
Qed.

Lemma sound_process_entity (e : entity) (s s' : state) :
  process_entity e s = Ok s' -> sound_step (entity_tol e) s s'.
Proof.
  destruct e as [a b|c r|c r sa ea|pts closed|name];
    unfold entity_tol; cbn [process_entity is_arc_entity].
  - intros [= <-]; apply sound_process_line.
  - intros [= <-]; apply sound_process_circle.
  - intros [= <-]; apply sound_process_arc.
  - rewrite process_lwpolyline_raises; discriminate.
  - intros [= <-]; apply sound_step_refl.
Qed.

Lemma sound_process_entities (tol : R) (msp : list entity) :
  forall s s' : state,
    Forall (fun e => entity_tol e <= tol) msp ->
    process_entities msp s = Ok s' -> sound_step tol s s'.
Proof.
  induction msp as [|e msp IH]; intros s s' Htol.
  - intros [= <-]; apply sound_step_refl.
  - inversion Htol as [|? ? He Hmsp]; subst.
    cbn [process_entities].
    destruct (process_entity e s) as [s1|x] eqn:E; [|discriminate].
    cbn [bind]; intros E2.
    eapply sound_step_trans; [|exact (IH _ _ Hmsp E2)].
    exact (sound_step_mono _ _ _ _ He (sound_process_entity _ _ _ E)).
Qed.

(** X8: in the lines a returning run appends, every arc has its start and
    its end equally far from its centre up to 1e-3, and exactly so when the
    drawing has no ARC entity; the position the lines lead to is the
    position the converter holds. *)
Theorem run_arcs_are_sound (msp : list entity) (s s' : state) (b : bool) :
  process_dxf (Ok msp) s = Ok (b, s') ->
  exists out,
    gcode s' = gcode s ++ out /\
    radii_within 0.001 (current_pos s) out /\
    (forallb (fun e => negb (is_arc_entity e)) msp = true ->
     radii_within 0 (current_pos s) out) /\
    track (current_pos s) out = current_pos s'.
Proof.
  cbn [process_dxf].
  destruct (process_entities msp s) as [s1|x] eqn:E; [|discriminate].
  cbn [bind]; intros [= <- <-].
  assert (H1 : sound_step 0.001 s (laser_off s1)).
  { eapply sound_step_trans; [|apply sound_laser_off].
    apply (sound_process_entities 0.001 msp s s1); [|exact E].
    apply Forall_forall; intros e _; unfold entity_tol.
    destruct (is_arc_entity e); lra. }
  destruct H1 as [out [G [Rr T]]].
  exists out; repeat split; trivial.
  intros Hno.
  assert (H0 : sound_step 0 s (laser_off s1)).
  { eapply sound_step_trans; [|apply sound_laser_off].
    apply (sound_process_entities 0 msp s s1); [|exact E].
    apply Forall_forall; intros e He; unfold entity_tol.
    rewrite forallb_forall in Hno; specialize (Hno e He).
    destruct (is_arc_entity e); [discriminate | lra]. }
  destruct H0 as [out0 [G0' [R0 _]]].
  assert (out0 = out) as <- by (apply (app_inv_head (gcode s)); congruence).
  exact R0.
Qed.

Lemma run_arcs_are_sound_witness :
  exists out,
    gcode after_sample_drawing = gcode default_init ++ out /\
    radii_within 0.001 (current_pos default_init) out /\
    (forallb (fun e => negb (is_arc_entity e)) sample_drawing = true ->
     radii_within 0 (current_pos default_init) out) /\
    track (current_pos default_init) out = current_pos after_sample_drawing.
Proof.
  exact (run_arcs_are_sound sample_drawing default_init after_sample_drawing
           true sample_drawing_run).
Defined.

(** ** ARC entities *)

(** X9: an ARC entity is cut as one counterclockwise arc ([G3]) to the
    point at its end angle, whatever the order of its angles; both end
    points are at distance [|radius|] from the centre.  When the tool is
    further than 1e-3 from the start point, a rapid goes there first and
    the offset written is [-radius * (cos, sin)] of the start angle;
    otherwise no rapid is written and the offset is taken from the point
    the tool is at. *)
Theorem arc_entity_lines (c : vec) (r sa ea : R) (s : state) :
  let sx := Vec2.x c + r * cos (radians sa) in
  let sy := Vec2.y c + r * sin (radians sa) in
  let ex := Vec2.x c + r * cos (radians ea) in
  let ey := Vec2.y c + r * sin (radians ea) in
  (Vec2.distance (current_pos s) V(sx, sy) > 0.001 ->
   gcode (process_arc c r sa ea s) =
   gcode s ++ (if laser_on s then [M5] else []) ++
   [G0 sx sy; M4 (power s);
    G3 ex ey (- (r * cos (radians sa))) (- (r * sin (radians sa)))
       (feed_rate s)]) /\
  (Vec2.distance (current_pos s) V(sx, sy) <= 0.001 ->
   gcode (process_arc c r sa ea s) =
   gcode s ++ (if laser_on s then [] else [M4 (power s)]) ++
   [G3 ex ey (Vec2.x c - Vec2.x (current_pos s))
             (Vec2.y c - Vec2.y (current_pos s)) (feed_rate s)]) /\
  Vec2.distance c V(sx, sy) = Rabs r /\
  Vec2.distance c V(ex, ey) = Rabs r /\
  current_pos (process_arc c r sa ea s) = V(ex, ey) /\
  laser_on (process_arc c r sa ea s) = true.
Proof.
  intros sx sy ex ey.
  destruct (process_arc_rapid c r sa ea s) as [Hfar Hnear].
  cbn [Vec2.x Vec2.y] in Hfar, Hnear; fold sx sy ex ey in Hfar, Hnear.
  split; [|split; [|split; [|split; [|split]]]].
  - intros H; rewrite (Hfar H), arc_move_spec, rapid_move_spec.
    cbn [gcode current_pos laser_on power feed_rate].
    unfold on_lines, arc_line, off_lines;
      cbn [laser_on current_pos feed_rate power Vec2.x Vec2.y].
    rewrite <- !app_assoc; cbn [app]; unfold sx, sy.
    repeat (f_equal; try ring).
  - intros H; rewrite (Hnear H), arc_move_spec; reflexivity.
  - apply circle_point_distance.
  - apply circle_point_distance.
  - unfold process_arc; now rewrite arc_move_spec.
  - unfold process_arc; now rewrite arc_move_spec.
Qed.

(** ** The emitting methods in any order *)

Lemma toggle_balance (l : list cmd) :
  forall on on' : bool,
    run toggle_step on l = Some on' ->
    (List.length (filter is_on l) + Nat.b2n on =
     List.length (filter is_off l) + Nat.b2n on')%nat.
Proof.
  induction l as [|c l IH]; intros on on'.
  - now intros [= <-].
  - destruct c; cbn [run toggle_step filter is_on is_off];
      try (intros H; apply (IH _ _ H)).
    + destruct on; [|discriminate].
      intros H; specialize (IH _ _ H); cbn [List.length Nat.b2n] in *; lia.
    + destruct on; [discriminate|].
      intros H; specialize (IH _ _ H); cbn [List.length Nat.b2n] in *; lia.
Qed.

(** X10: whatever the order in which [laser_off], [rapid_move],
    [linear_move] and [arc_move] are called on a converter whose laser
    flag is off, the flag stays equal to the energization the written
    lines give the tool, no rapid is written while it is energized, every
    toggle changes it, and the [M4] lines outnumber the [M5] lines by one
    exactly when the flag is on. *)
Theorem emitting_methods_keep_flag (s0 s : state) :
  laser_on s0 = false ->
  moves s0 s ->
  exists out,
    gcode s = gcode s0 ++ out /\
    energized_after out = laser_on s /\
    rapids_deenergized out = true /\
    toggles_effective out = true /\
    (List.length (filter is_on out) =
     List.length (filter is_off out) + Nat.b2n (laser_on s))%nat.
Proof.
  intros Hoff Hm.
  destruct (moves_run bool energy_step (fun on => on)) with (s0 := s0) (s := s)
    as [out [Hg He]]; trivial.
  { intros c Hc; destruct c; simpl in *; congruence. }
  { intros p c Hc; destruct c; simpl in *; congruence. }
  destruct (moves_run bool toggle_step (fun on => on)) with (s0 := s0) (s := s)
    as [out' [Hg' Ht]]; trivial.
  { intros c Hc; destruct c; simpl in *; congruence. }
  { intros p c Hc; destruct c; simpl in *; congruence. }
  assert (out' = out) as -> by (apply (app_inv_head (gcode s0)); congruence).
  rewrite Hoff in He, Ht.
  exists out; unfold energized_after, rapids_deenergized, toggles_effective.
  rewrite He, Ht; repeat split; trivial.
  pose proof (toggle_balance out _ _ Ht) as Hb; cbn [Nat.b2n] in Hb; lia.
Qed.

Lemma emitting_methods_keep_flag_witness :
  exists out,
    gcode (arc_move 0 5 0 0 false (linear_move 5 0 default_init)) =
      gcode default_init ++ out /\
    energized_after out =
      laser_on (arc_move 0 5 0 0 false (linear_move 5 0 default_init)) /\
    rapids_deenergized out = true /\
    toggles_effective out = true /\
    (List.length (filter is_on out) =
     List.length (filter is_off out) +
     Nat.b2n (laser_on (arc_move 0 5 0 0 false (linear_move 5 0 default_init))))%nat.
Proof.
  apply (emitting_methods_keep_flag default_init
           (arc_move 0 5 0 0 false (linear_move 5 0 default_init)));
    [reflexivity | apply moves_arc, moves_linear, moves_refl].
Defined.

(** ** When a run raises *)

Lemma process_entity_result (e : entity) (s : state) :
  (is_lwpolyline e = false /\ exists s', process_entity e s = Ok s') \/
  (is_lwpolyline e = true /\ process_entity e s = Raise TypeError).
Proof.
  destruct e as [a b|c r|c r sa ea|pts closed|name]; cbn [process_entity];
    try (left; split; [reflexivity | eexists; reflexivity]).
  right; split; reflexivity.
Qed.

(** X11: a run over a drawing that could be read returns, with [True],
    exactly when the drawing holds no LWPOLYLINE entity; when it holds
    one, the run raises [TypeError], from [list(entity.points())] on the
    first of them. *)
Theorem run_raises_on_polylines (msp : list entity) (s : state) :
  (existsb is_lwpolyline msp = false ->
   exists s', process_dxf (Ok msp) s = Ok (true, s')) /\
  (existsb is_lwpolyline msp = true ->
   process_dxf (Ok msp) s = Raise TypeError).
Proof.
  assert (H : (existsb is_lwpolyline msp = false ->
               exists s', process_entities msp s = Ok s') /\
              (existsb is_lwpolyline msp = true ->
               process_entities msp s = Raise TypeError)).
  { revert s; induction msp as [|e msp IH]; intros s.
    - split; [intros _; now exists s | discriminate].
    - cbn [existsb process_entities].
      destruct (process_entity_result e s) as [[He [s1 E]]|[He E]];
        rewrite He, E; cbn [orb bind].
      + apply IH.
      + split; [discriminate | reflexivity]. }
  destruct H as [H1 H2]; cbn [process_dxf]; split; intros Hc.
  - destruct (H1 Hc) as [s' E]; rewrite E; cbn [bind]; eexists; reflexivity.
  - now rewrite (H2 Hc).
Qed.

(** ** The command line *)

Lemma optional_file_spec (w : files) (skip : bool) (name : option string)
    (s s' : state) :
  optional_file skip name (add_header_file w) s = Ok s' ->
  s' = mkState (power s) (feed_rate s) (rapid_rate s)
               (gcode s ++ file_lines w skip name) (current_pos s) (laser_on s).
Proof.
  unfold optional_file, file_lines, truthy, add_header_file, open_read,
    add_header, append.
  destruct s as [p f r g pos on]; cbn [power feed_rate rapid_rate gcode
                                        current_pos laser_on].
  destruct name as [n|]; destruct skip; cbn [negb andb];
    rewrite ?app_nil_r; try (now intros [= <-]).
  destruct (String.eqb n ""); cbn [negb andb]; rewrite ?app_nil_r;
    try (now intros [= <-]).
  destruct (path_exists w n); rewrite ?app_nil_r; try (now intros [= <-]).
  destruct (readable w n); cbn [bind]; [now intros [= <-] | discriminate].
Qed.

Lemma optional_file_readable (w : files) (skip : bool) (name : option string)
    (s : state) :
  (forall n, readable w n = true) ->
  exists s', optional_file skip name (add_header_file w) s = Ok s'.
Proof.
  intros Hr; unfold optional_file, add_header_file, open_read.
  destruct (negb skip && truthy name); [|eexists; reflexivity].
  destruct name as [n|]; [|eexists; reflexivity].
  destruct (path_exists w n); [|eexists; reflexivity].
  rewrite Hr; eexists; reflexivity.
Qed.

Lemma optional_footer_spec (w : files) (skip : bool) (name : option string)
    (s : state) :
  optional_file skip name (add_footer_file w) s =
  optional_file skip name (add_header_file w) s.
Proof. reflexivity. Qed.

Lemma headed_spec (w : files) (a : args) (c0 : state) :
  optional_file (a_no_header a) (a_header a) (add_header_file w)
    (init (a_power a) (a_feed a) (a_rapid a)) = Ok c0 ->
  c0 = headed w a.
Proof. intros H; now rewrite (optional_file_spec _ _ _ _ _ H). Qed.

(** What [main] did when it returns. *)
Lemma main_returns (w : files) (a : args) (code : Z)
    (saved : option (string * list cmd)) :
  main w a = Ok (code, saved) ->
  (path_exists w (a_input a) = false /\ code = 1%Z /\ saved = None) \/
  (path_exists w (a_input a) = true /\
   (exists e, readfile w (a_input a) = Raise e) /\
   code = 1%Z /\ saved = None) \/
  (path_exists w (a_input a) = true /\
   exists msp c1,
     readfile w (a_input a) = Ok msp /\
     process_dxf (Ok msp) (headed w a) = Ok (true, c1) /\
     code = 0%Z /\
     saved = Some (output_name a,
                   gcode c1 ++ file_lines w (a_no_footer a) (a_footer a))).
Proof.
  unfold main.
  destruct (path_exists w (a_input a)); cbn [negb];
    [|intros [= <- <-]; now left].
  destruct (optional_file (a_no_header a) _ _ _) as [c0|x] eqn:Eh;
    [|discriminate].
  apply headed_spec in Eh; subst c0; cbn [bind].
  destruct (readfile w (a_input a)) as [msp|e].
  - destruct (process_dxf (Ok msp) (headed w a)) as [[b c1]|x] eqn:Erun;
      [|discriminate].
    assert (b = true) as ->.
    { cbn [process_dxf] in Erun.
      destruct (process_entities msp _); [|discriminate].
      now injection Erun as <- _. }
    cbn [bind fst snd negb]; rewrite optional_footer_spec.
    destruct (optional_file (a_no_footer a) _ _ c1) as [c2|x] eqn:Ef;
      [|discriminate].
    rewrite (optional_file_spec _ _ _ _ _ Ef); unfold save_gcode.
    destruct (writable w (output_name a)); [|discriminate].
    cbn [bind gcode]; intros [= <- <-].
    right; right; split; [reflexivity|]; now exists msp, c1.
  - cbn [process_dxf bind fst negb]; intros [= <- <-].
    right; left; repeat split; now exists e.
Qed.

(** X12: [main] exits with 0 or 1; it exits with 1 exactly when the input
    path does not exist or [ezdxf.readfile] raised, and exactly then no
    output file is written. *)
Theorem main_failure_writes_nothing (w : files) (a : args) (code : Z)
    (saved : option (string * list cmd)) :
  main w a = Ok (code, saved) ->
  (code = 0%Z \/ code = 1%Z) /\
  (code = 1%Z <-> saved = None) /\
  (code = 1%Z <->
   path_exists w (a_input a) = false \/
   exists e, readfile w (a_input a) = Raise e).
Proof.
  intros H; destruct (main_returns w a code saved H)
    as [[Hp [-> ->]]|[[Hp [[e Hr] [-> ->]]]|[Hp [msp [c1 [Hr [_ [-> ->]]]]]]]].
  - repeat split; auto.
  - repeat split; eauto.
  - repeat split; auto; try discriminate.
    intros [Hf|[e He]]; congruence.
Qed.

Lemma sample_drawing_run_from (s : state) :
  current_pos s = V(0, 0) ->
  process_dxf (Ok sample_drawing) s = Ok (true, after_sample_from s).
Proof.
  intros Hpos.
  cbv [process_dxf sample_drawing process_entities process_entity bind].
  rewrite (proj2 (process_line_rapid _ _ _))
    by (rewrite Hpos, distance_same; lra).
  cbn [Vec2.x Vec2.y]; unfold after_sample_from.
  reflexivity.
Qed.

Lemma main_on_sample (a : args) :
  main sample_files a =
  Ok (0%Z,
      Some (output_name a,
            gcode (after_sample_from (headed sample_files a)) ++
            file_lines sample_files (a_no_footer a) (a_footer a))) \/
  a_input a = "stop.gcode"%string.
Proof.
  unfold main; cbn [sample_files path_exists].
  destruct (String.eqb_spec (a_input a) "stop.gcode") as [E|_];
    [now right | left; cbn [negb]].
  fold sample_files.
  destruct (optional_file_readable sample_files (a_no_header a) (a_header a)
              (init (a_power a) (a_feed a) (a_rapid a))) as [c0 Eh];
    [reflexivity|].
  rewrite Eh; apply headed_spec in Eh; subst c0; cbn [bind readfile sample_files].
  fold sample_files.
  rewrite sample_drawing_run_from by reflexivity.
  cbn [bind fst snd negb]; rewrite optional_footer_spec.
  destruct (optional_file_readable sample_files (a_no_footer a) (a_footer a)
              (after_sample_from (headed sample_files a))) as [c2 Ef];
    [reflexivity|].
  rewrite Ef, (optional_file_spec _ _ _ _ _ Ef).
  reflexivity.
Qed.

Lemma main_failure_writes_nothing_witness :
  (0%Z = 0%Z \/ 0%Z = 1%Z) /\
  (0%Z = 1%Z <->
   Some (output_name sample_args,
         gcode (after_sample_from (headed sample_files sample_args)) ++
         file_lines sample_files (a_no_footer sample_args)
                    (a_footer sample_args)) = None) /\
  (0%Z = 1%Z <->
   path_exists sample_files (a_input sample_args) = false \/
   exists e, readfile sample_files (a_input sample_args) = Raise e).
Proof.
  apply (main_failure_writes_nothing sample_files sample_args).
  destruct (main_on_sample sample_args) as [H|H]; [exact H | discriminate H].
Defined.

(** X13: the file [main] writes holds the header text (when asked for and
    found), then the lines of the run, then the footer text (when asked for
    and found), under the name given or derived from the input.  The lines
    of the run keep the energization discipline, so the footer is reached
    with the tool off. *)
Theorem main_output_layout (w : files) (a : args) (path : string)
    (lines : list cmd) :
  main w a = Ok (0%Z, Some (path, lines)) ->
  path = output_name a /\
  exists out,
    lines = file_lines w (a_no_header a) (a_header a) ++ out ++
            file_lines w (a_no_footer a) (a_footer a) /\
    rapids_deenergized out = true /\
    energized_after out = false /\
    toggles_effective out = true /\
    on_followed_by_cut out = true.
Proof.
  intros H; destruct (main_returns w a _ _ H)
    as [[_ [E _]]|[[_ [_ [E _]]]|[_ [msp [c1 [_ [Hrun [_ E]]]]]]]];
    try discriminate.
  injection E as -> ->; split; [reflexivity|].
  set (c0 := headed w a) in *.
  assert (Hoff : laser_on c0 = false) by reflexivity.
  assert (Hhead : gcode c0 = file_lines w (a_no_header a) (a_header a))
    by reflexivity.
  destruct (process_dxf_run energy_step (fun on => on) (Ok msp) c0 c1 true)
    as [out [Hg He]]; trivial.
  { intros c Hc; destruct c; simpl in *; congruence. }
  { intros p c Hc; destruct c; simpl in *; congruence. }
  destruct (process_dxf_run toggle_step (fun on => on) (Ok msp) c0 c1 true)
    as [out1 [Hg1 Ht]]; trivial.
  { intros c Hc; destruct c; simpl in *; congruence. }
  { intros p c Hc; destruct c; simpl in *; congruence. }
  destruct (process_dxf_run pending_step (fun _ => false) (Ok msp) c0 c1 true)
    as [out2 [Hg2 Hp2]]; trivial.
  { intros c Hc; destruct c; simpl in *; congruence. }
  { intros p c Hc; simpl; now rewrite Hc. }
  assert (out1 = out) as -> by (apply (app_inv_head (gcode c0)); congruence).
  assert (out2 = out) as -> by (apply (app_inv_head (gcode c0)); congruence).
  exists out; rewrite Hg, Hhead, <- app_assoc.
  unfold rapids_deenergized, energized_after, toggles_effective,
    on_followed_by_cut; rewrite He, Ht, Hp2; repeat split.
Qed.

Lemma main_output_layout_witness :
  output_name sample_args = output_name sample_args /\
  exists out,
    gcode (after_sample_from (headed sample_files sample_args)) ++
    file_lines sample_files (a_no_footer sample_args) (a_footer sample_args) =
    file_lines sample_files (a_no_header sample_args) (a_header sample_args) ++
    out ++
    file_lines sample_files (a_no_footer sample_args) (a_footer sample_args) /\
    rapids_deenergized out = true /\
    energized_after out = false /\
    toggles_effective out = true /\
    on_followed_by_cut out = true.
Proof.
  apply (main_output_layout sample_files sample_args).
  destruct (main_on_sample sample_args) as [H|H]; [exact H | discriminate H].
Defined.

(** ** The name of the output file *)

Lemma replace_without_occurrence (old new : string) (s : string) :
  occurs old s = false -> replace_from old new 0 s = s.
Proof.
  induction s as [|c s IH]; [reflexivity|].
  cbn [occurs replace_from]; intros H.
  apply orb_false_elim in H as [Hp Ho].
  rewrite Hp; f_equal; now apply IH.
Qed.

(** X14: without an output option (or with an empty one), when ".dxf" does
    not occur in the input path as written, for instance when the extension is in
    capitals, the G-code is written to the input path itself. *)
Theorem output_overwrites_input (w : files) (a : args) (path : string)
    (lines : list cmd) :
  truthy (a_output a) = false ->
  occurs ".dxf" (a_input a) = false ->
  main w a = Ok (0%Z, Some (path, lines)) ->
  path = a_input a.
Proof.
  intros Hout Hocc Hmain.
  destruct (main_returns w a _ _ Hmain)
    as [[_ [E _]]|[[_ [_ [E _]]]|[_ [msp [c1 [_ [_ [_ E]]]]]]]];
    try discriminate.
  injection E as -> _.
  unfold output_name, truthy in *.
  destruct (a_output a) as [o|];
    [destruct (String.eqb o ""); [|discriminate]|];
    now apply replace_without_occurrence.
Qed.

Lemma output_overwrites_input_witness :
  output_name capital_args = a_input capital_args.
Proof.
  apply (output_overwrites_input sample_files capital_args _
           (gcode (after_sample_from (headed sample_files capital_args)) ++
            file_lines sample_files (a_no_footer capital_args)
                       (a_footer capital_args)));
    [reflexivity | reflexivity |].
  destruct (main_on_sample capital_args) as [H|H]; [exact H | discriminate H].
Defined.

Lemma replace_dotless (s : string) (rest : string) :
  dotless s = true ->
  py_replace ".dxf" ".gcode" (String.append s rest) =
  String.append s (py_replace ".dxf" ".gcode" rest).
Proof.
  unfold py_replace; induction s as [|c s IH]; [reflexivity|].
  cbn [dotless]; intros H; apply andb_prop in H as [Hc Hs].
  cbn [String.append replace_from String.prefix].
  destruct (ascii_dec "." c) as [<-|_]; [discriminate Hc|].
  now rewrite IH.
Qed.

(** X15: [replace] rewrites every ".dxf" of the input path, not only its
    extension: a path made of a part without dots, ".dxf", and a rest,
    becomes that part, ".gcode", and the rest rewritten in the same way; a
    plain name such as "panel.dxf" becomes "panel.gcode". *)
Theorem output_name_replaces_every_dxf (stem rest : string) :
  dotless stem = true ->
  py_replace ".dxf" ".gcode" (String.append stem (String.append ".dxf" rest)) =
  String.append stem (String.append ".gcode" (py_replace ".dxf" ".gcode" rest)) /\
  py_replace ".dxf" ".gcode" (String.append stem ".dxf") =
  String.append stem ".gcode".
Proof.
  intros H; split; rewrite (replace_dotless stem _ H); [|reflexivity].
  f_equal; destruct rest; reflexivity.
Qed.

Lemma output_name_replaces_every_dxf_witness :
  py_replace ".dxf" ".gcode"
    (String.append "panel" (String.append ".dxf" "/part.dxf")) =
  String.append "panel"
    (String.append ".gcode" (py_replace ".dxf" ".gcode" "/part.dxf")) /\
  py_replace ".dxf" ".gcode" (String.append "panel" ".dxf") =
  String.append "panel" ".gcode".
Proof.
  apply (output_name_replaces_every_dxf "panel" "/part.dxf"); reflexivity.
Defined.

(** ** LINE entities *)

(** X16: a LINE entity is cut with one [G1] to its end point.  A rapid to
    its start point is written, after [M5] if the laser is on and followed
    by [M4], exactly when the start is further than 1e-3 from the point the
    tool is at; otherwise the cut follows directly, with [M4] first only if
    the laser is off. *)
Theorem line_entity_lines (a b : vec) (s : state) :
  (Vec2.distance (current_pos s) a > 0.001 ->
   gcode (process_line a b s) =
   gcode s ++ (if laser_on s then [M5] else []) ++
   [G0 (Vec2.x a) (Vec2.y a); M4 (power s);
    G1 (Vec2.x b) (Vec2.y b) (feed_rate s)]) /\
  (Vec2.distance (current_pos s) a <= 0.001 ->
   gcode (process_line a b s) =
   gcode s ++ (if laser_on s then [] else [M4 (power s)]) ++
   [G1 (Vec2.x b) (Vec2.y b) (feed_rate s)]) /\
  (forall out, gcode (process_line a b s) = gcode s ++ out ->
     (rapid_count out = 1%nat <-> Vec2.distance (current_pos s) a > 0.001)) /\
  current_pos (process_line a b s) = b /\
  laser_on (process_line a b s) = true.
Proof.
  destruct (process_line_rapid a b s) as [Hfar Hnear].
  assert (Efar : Vec2.distance (current_pos s) a > 0.001 ->
                 gcode (process_line a b s) =
                 gcode s ++ (if laser_on s then [M5] else []) ++
                 [G0 (Vec2.x a) (Vec2.y a); M4 (power s);
                  G1 (Vec2.x b) (Vec2.y b) (feed_rate s)]).
  { intros H; rewrite (Hfar H), linear_move_spec, rapid_move_spec.
    cbn [gcode feed_rate]; unfold on_lines, off_lines; cbn [laser_on power].
    now rewrite <- !app_assoc. }
  assert (Enear : Vec2.distance (current_pos s) a <= 0.001 ->
                  gcode (process_line a b s) =
                  gcode s ++ (if laser_on s then [] else [M4 (power s)]) ++
                  [G1 (Vec2.x b) (Vec2.y b) (feed_rate s)]).
  { intros H; now rewrite (Hnear H), linear_move_spec. }
  split; [exact Efar|]; split; [exact Enear|]; split; [|split].
  - intros out Hout.
    destruct (Rgt_dec (Vec2.distance (current_pos s) a) 0.001) as [H|H].
    + rewrite (Efar H) in Hout; apply app_inv_head in Hout; subst out.
      split; [intros _; exact H | intros _].
      now destruct (laser_on s).
    + assert (H' : Vec2.distance (current_pos s) a <= 0.001) by lra.
      rewrite (Enear H') in Hout; apply app_inv_head in Hout; subst out.
      split; [|intros Hc; contradiction].
      destruct (laser_on s); discriminate.
  - unfold process_line; rewrite linear_move_spec; cbn [current_pos].
    apply vec_eta.
  - unfold process_line; now rewrite linear_move_spec.
Qed.

(** * deploy.py: [parse_document_url] *)

Lemma rstrip_append_slash (u : string) :
  rstrip_slash (String.append u "/") = rstrip_slash u.
Proof.
  induction u as [|c u IH]; [reflexivity|].
  cbn [String.append rstrip_slash]; now rewrite IH.
Qed.

Lemma rstrip_append_keep (s t : string) :
  rstrip_slash t = t -> t <> EmptyString ->
  rstrip_slash (String.append s t) = String.append s t.
Proof.
  intros Ht Hne; induction s as [|c s IH]; [exact Ht|].
  cbn [String.append rstrip_slash]; rewrite IH.
  destruct (String.append s t) eqn:E; [|reflexivity].
  destruct s; cbn [String.append] in E; [contradiction | discriminate].
Qed.

Lemma rstrip_slashless (t : string) :
  slashless t = true -> rstrip_slash t = t.
Proof.
  induction t as [|c t IH]; [reflexivity|].
  cbn [slashless rstrip_slash]; intros H; apply andb_prop in H as [Hc Ht].
  rewrite (IH Ht); destruct t; [|reflexivity].
  now destruct (is_slash c).
Qed.

Lemma append_nonempty_r (s t : string) :
  t <> EmptyString -> String.append s t <> EmptyString.
Proof. destruct s; [trivial | discriminate]. Qed.

Lemma split_slash_nonempty (s : string) : split_slash s <> [].
Proof.
  induction s as [|c s IH]; [discriminate|].
  cbn [split_slash]; destruct (is_slash c); [discriminate|].
  destruct (split_slash s); [contradiction | discriminate].
Qed.

Lemma split_append_slash (a b : string) :
  split_slash (String.append a (String "/" b)) =
  split_slash a ++ split_slash b.
Proof.
  induction a as [|c a IH]; [reflexivity|].
  cbn [String.append split_slash]; rewrite IH.
  destruct (is_slash c); [reflexivity|].
  pose proof (split_slash_nonempty a) as Hne.
  destruct (split_slash a); [contradiction | reflexivity].
Qed.

Lemma split_slashless (s : string) :
  slashless s = true -> split_slash s = [s].
Proof.
  induction s as [|c s IH]; [reflexivity|].
  cbn [slashless split_slash]; intros H; apply andb_prop in H as [Hc Hs].
  rewrite (IH Hs); now destruct (is_slash c).
Qed.

Lemma split_piece (p rest : string) :
  slashless p = true ->
  split_slash (String.append p (String "/" rest)) = p :: split_slash rest.
Proof.
  intros H; now rewrite split_append_slash, (split_slashless p H).
Qed.

Lemma split_documented_url (base did wid eid : string) :
  slashless did = true -> slashless wid = true -> slashless eid = true ->
  split_slash (documented_url base did wid eid) =
  split_slash base ++ ["documents"; did; "w"; wid; "e"; eid]%string.
Proof.
  intros Hd Hw He; unfold documented_url.
  replace (String.append "/documents/"
             (String.append did
                (String.append "/w/"
                   (String.append wid (String.append "/e/" eid)))))
    with (String "/"
            (String.append "documents"
               (String "/"
                  (String.append did
                     (String "/"
                        (String.append "w"
                           (String "/"
                              (String.append wid
                                 (String "/"
                                    (String.append "e"
                                       (String "/" eid)))))))))))
    by reflexivity.
  rewrite split_append_slash; f_equal.
  rewrite !split_piece by (trivial || reflexivity).
  now rewrite (split_slashless eid He).
Qed.

Lemma rstrip_documented_url (base did wid eid : string) :
  slashless eid = true -> eid <> EmptyString ->
  rstrip_slash (documented_url base did wid eid) =
  documented_url base did wid eid.
Proof.
  intros He Hne; unfold documented_url.
  repeat (apply rstrip_append_keep; [|repeat apply append_nonempty_r; exact Hne]).
  now apply rstrip_slashless.
Qed.

Lemma list_index_app (x : string) (l1 l2 : list string) :
  forallb (fun p => negb (String.eqb p x)) l1 = true ->
  list_index x (l1 ++ l2) =
  option_map (Nat.add (List.length l1)) (list_index x l2).
Proof.
  induction l1 as [|p l1 IH]; cbn [forallb app list_index List.length].
  - intros _; now destruct (list_index x l2).
  - intros H; apply andb_prop in H as [Hp Hl].
    destruct (String.eqb p x); [discriminate|].
    rewrite (IH Hl); now destruct (list_index x l2).
Qed.

Lemma segment_after_app (x : string) (l1 l2 : list string) :
  forallb (fun p => negb (String.eqb p x)) l1 = true ->
  list_index x l2 <> None ->
  segment_after x (l1 ++ l2) = segment_after x l2.
Proof.
  intros H Hsome; unfold segment_after; rewrite (list_index_app x l1 l2 H).
  destruct (list_index x l2) as [i|]; [|contradiction].
  cbn [option_map].
  rewrite nth_error_app2 by lia; f_equal; lia.
Qed.

Lemma not_a_key_split (l : list string) :
  forallb not_a_key l = true ->
  forallb (fun p => negb (String.eqb p "documents")) l = true /\
  forallb (fun p => negb (String.eqb p "w")) l = true /\
  forallb (fun p => negb (String.eqb p "e")) l = true.
Proof.
  induction l as [|p l IH]; [now repeat split|].
  cbn [forallb]; unfold not_a_key at 1; intros H.
  apply andb_prop in H as [Hp Hl].
  apply andb_prop in Hp as [Hp He]; apply andb_prop in Hp as [Hd Hw].
  destruct (IH Hl) as [I1 [I2 I3]].
  now rewrite Hd, Hw, He, I1, I2, I3.
Qed.

(** X17: a URL of the documented form
    [{base}/documents/{did}/w/{wid}/e/{eid}] is parsed back into
    [(did, wid, eid)], provided the three identifiers hold no slash, [eid]
    is not empty, no piece of [base] is one of the words "documents", "w",
    "e", and neither [did] is "w" or "e" nor [wid] is "e" (the first
    piece equal to a key word is the one that counts). *)
Theorem documented_url_is_parsed (base did wid eid : string) :
  forallb not_a_key (split_slash base) = true ->
  slashless did = true -> slashless wid = true -> slashless eid = true ->
  eid <> EmptyString ->
  String.eqb did "w" = false -> String.eqb did "e" = false ->
  String.eqb wid "e" = false ->
  parse_document_url (documented_url base did wid eid) =
  Returned (did, wid, eid).
Proof.
  intros Hbase Hd Hw He Hne Hdw Hde Hwe.
  destruct (not_a_key_split _ Hbase) as [B1 [B2 B3]].
  unfold parse_document_url.
  rewrite (rstrip_documented_url base did wid eid He Hne),
    (split_documented_url base did wid eid Hd Hw He).
  rewrite (segment_after_app "documents" _ _ B1) by (cbn; discriminate).
  rewrite (segment_after_app "w" _ _ B2)
    by (cbn [list_index]; rewrite Hdw; cbn; discriminate).
  rewrite (segment_after_app "e" _ _ B3)
    by (cbn [list_index]; rewrite Hde, Hwe; cbn; discriminate).
  unfold segment_after; cbn [list_index]; rewrite Hdw, Hde, Hwe.
  reflexivity.
Qed.

Lemma documented_url_is_parsed_witness :
  parse_document_url
    (documented_url "https://cad.onshape.com" "abc123" "def456" "0a1b") =
  Returned ("abc123", "def456", "0a1b")%string.
Proof.
  apply (documented_url_is_parsed "https://cad.onshape.com" "abc123"
           "def456" "0a1b"); try reflexivity.
  discriminate.
Defined.

(** X18: trailing slashes do not matter: a URL and the same URL followed
    by a slash are parsed alike. *)
Theorem trailing_slash_is_ignored (url : string) :
  parse_document_url (String.append url "/") = parse_document_url url.
Proof.
  unfold parse_document_url; now rewrite rstrip_append_slash.
Qed.

Lemma list_index_in (x : string) (l : list string) :
  ~ In x l -> list_index x l = None.
Proof.
  induction l as [|p l IH]; [reflexivity|].
  cbn [In list_index]; intros H.
  destruct (String.eqb_spec p x) as [E|_]; [tauto|].
  rewrite IH by tauto; reflexivity.
Qed.

Lemma segment_after_missing (x : string) (l : list string) :
  ~ In x l -> segment_after x l = None.
Proof.
  intros H; unfold segment_after; now rewrite (list_index_in x l H).
Qed.

Lemma split_url_without_eid (base did wid : string) :
  slashless did = true -> slashless wid = true ->
  split_slash (url_without_eid base did wid) =
  split_slash base ++ ["documents"; did; "w"; wid; "e"]%string.
Proof.
  intros Hd Hw; unfold url_without_eid.
  replace (String.append "/documents/"
             (String.append did
                (String.append "/w/" (String.append wid "/e"))))
    with (String "/"
            (String.append "documents"
               (String "/"
                  (String.append did
                     (String "/"
                        (String.append "w"
                           (String "/"
                              (String.append wid (String "/" "e")))))))))
    by reflexivity.
  rewrite split_append_slash; f_equal.
  now rewrite !split_piece by (trivial || reflexivity).
Qed.

Lemma rstrip_url_without_eid (base did wid : string) :
  rstrip_slash (url_without_eid base did wid) = url_without_eid base did wid.
Proof.
  unfold url_without_eid.
  repeat (apply rstrip_append_keep;
          [|repeat apply append_nonempty_r; discriminate]).
  reflexivity.
Qed.

(** X19: when one of the pieces "documents", "w", "e" is missing from the
    URL cut at its slashes, the parser exits with code 1; so it does on a
    URL of the documented form that stops after "/e" or "/e/", with no
    element identifier. *)
Theorem incomplete_url_exits :
  (forall url : string,
     ~ In "documents"%string (split_slash (rstrip_slash url)) \/
     ~ In "w"%string (split_slash (rstrip_slash url)) \/
     ~ In "e"%string (split_slash (rstrip_slash url)) ->
     parse_document_url url = SysExit 1) /\
  (forall base did wid : string,
     forallb not_a_key (split_slash base) = true ->
     slashless did = true -> slashless wid = true ->
     String.eqb did "w" = false -> String.eqb did "e" = false ->
     String.eqb wid "e" = false ->
     parse_document_url (url_without_eid base did wid) = SysExit 1 /\
     parse_document_url (String.append (url_without_eid base did wid) "/") =
       SysExit 1).
Proof.
  split.
  - intros url; unfold parse_document_url.
    set (parts := split_slash (rstrip_slash url)).
    intros [H|[H|H]]; rewrite (segment_after_missing _ _ H).
    + reflexivity.
    + destruct (segment_after "documents" parts); reflexivity.
    + destruct (segment_after "documents" parts); [|reflexivity].
      destruct (segment_after "w" parts); reflexivity.
  - intros base did wid Hbase Hd Hw Hdw Hde Hwe.
    rewrite trailing_slash_is_ignored.
    assert (E : parse_document_url (url_without_eid base did wid) = SysExit 1).
    { destruct (not_a_key_split _ Hbase) as [B1 [B2 B3]].
      unfold parse_document_url.
      rewrite rstrip_url_without_eid, (split_url_without_eid _ _ _ Hd Hw).
      rewrite (segment_after_app "documents" _ _ B1) by (cbn; discriminate).
      rewrite (segment_after_app "w" _ _ B2)
        by (cbn [list_index]; rewrite Hdw; cbn; discriminate).
      rewrite (segment_after_app "e" _ _ B3)
        by (cbn [list_index]; rewrite Hde, Hwe; cbn; discriminate).
      unfold segment_after; cbn [list_index]; rewrite Hdw, Hde, Hwe.
      reflexivity. }
    now split.
Qed.
